(** * Notepad console command executor: model and properties

    A shallow embedding of [applications/notepad/executors/console-executor.py]:
    the mapping-table loader, the state reader, the queue writer, the
    deduplicating dispatcher [process_result] and the poll loop [run],
    followed by the properties of the dispatch pipeline. *)

From Stdlib Require Import ZArith Ascii String List.
From stdpp Require Import base decidable countable strings gmap pretty.

Set Warnings "-register-all".

(** ** Python values that [json.load] produces *)

(** A Python [str] is a Rocq [string], one character per code point
    (code points below 256).  A JSON real is carried by the text Python's
    [str()] gives for the parsed float, which is all this program can
    observe of it besides its truth value. *)
Inductive json : Type :=
| JNull
| JBool (b : bool)
| JInt (z : Z)
| JFloat (repr : string)
| JStr (s : string)
| JArr (items : list json)
| JObj (fields : list (string * json)).

(** [json.load] builds a [dict] from the members of an object in document
    order; a repeated name keeps the last value. *)
Fixpoint dict_lookup {V : Type} (k : string) (fields : list (string * V)) : option V :=
  match fields with
  | [] => None
  | (k', v) :: rest =>
      match dict_lookup k rest with
      | Some v' => Some v'
      | None => if String.eqb k k' then Some v else None
      end
  end.

(** Iterating a [dict] yields each key once, in order of first insertion. *)
Fixpoint dict_keys {V : Type} (seen : list string) (fields : list (string * V)) : list string :=
  match fields with
  | [] => []
  | (k, _) :: rest =>
      if existsb (String.eqb k) seen then dict_keys seen rest
      else k :: dict_keys (k :: seen) rest
  end.

(** Truth value of a Python object, as tested by [if data:]. *)
Definition truthy (v : json) : bool :=
  match v with
  | JNull => false
  | JBool b => b
  | JInt z => negb (Z.eqb z 0)
  | JFloat r => negb (String.eqb r "0.0" || String.eqb r "-0.0")
  | JStr s => negb (String.eqb s "")
  | JArr items => match items with [] => false | _ => true end
  | JObj fields => match fields with [] => false | _ => true end
  end.

(** *** [str.strip()] *)

(** The characters [str.isspace()] accepts among the code points below 256:
    TAB, LF, VT, FF, CR, the separators FS, GS, RS, US, SPACE, NEL and the
    no-break space. *)
Definition is_space (c : ascii) : bool :=
  let n := nat_of_ascii c in
  (Nat.leb 9 n && Nat.leb n 13) || (Nat.leb 28 n && Nat.leb n 32)
  || Nat.eqb n 133 || Nat.eqb n 160.

Fixpoint lstrip (s : string) : string :=
  match s with
  | EmptyString => EmptyString
  | String c rest => if is_space c then lstrip rest else s
  end.

Fixpoint rstrip (s : string) : string :=
  match s with
  | EmptyString => EmptyString
  | String c rest =>
      match rstrip rest with
      | EmptyString => if is_space c then EmptyString else String c EmptyString
      | kept => String c kept
      end
  end.

Definition strip (s : string) : string := rstrip (lstrip s).

(** *** [str()] and [repr()] *)

Definition hex_digit (n : nat) : string :=
  String.substring n 1 "0123456789abcdef".

Definition hex2 (n : nat) : string :=
  hex_digit (Nat.div n 16) +:+ hex_digit (Nat.modulo n 16).

(** Printable code points below 256: everything but the C0 and C1
    controls, DEL, the no-break space and the soft hyphen. *)
Definition is_printable (c : ascii) : bool :=
  let n := nat_of_ascii c in
  (Nat.leb 32 n && Nat.ltb n 127) || (Nat.ltb 160 n && negb (Nat.eqb n 173)).

Fixpoint contains_char (c : ascii) (s : string) : bool :=
  match s with
  | EmptyString => false
  | String c' rest => Ascii.eqb c c' || contains_char c rest
  end.

Definition repr_char (quote c : ascii) : string :=
  let n := nat_of_ascii c in
  if Ascii.eqb c quote || Nat.eqb n 92 then String "\" (String c EmptyString)
  else if Nat.eqb n 9 then "\t"
  else if Nat.eqb n 10 then "\n"
  else if Nat.eqb n 13 then "\r"
  else if is_printable c then String c EmptyString
  else "\x" +:+ hex2 n.

Fixpoint repr_chars (quote : ascii) (s : string) : string :=
  match s with
  | EmptyString => EmptyString
  | String c rest => repr_char quote c +:+ repr_chars quote rest
  end.

(** [repr] of a [str]: single quotes, unless the text has a single quote
    and no double quote. *)
Definition repr_str (s : string) : string :=
  let single := ascii_of_nat 39 in
  let double := ascii_of_nat 34 in
  let quote :=
    if contains_char single s && negb (contains_char double s) then double
    else single in
  String quote (repr_chars quote s) +:+ String quote EmptyString.

Fixpoint join (sep : string) (parts : list string) : string :=
  match parts with
  | [] => EmptyString
  | [p] => p
  | p :: rest => p +:+ sep +:+ join sep rest
  end.

(** The items of the [dict] built from an object's members: each key once,
    at the place of its first occurrence, with the value of its last. *)
Definition dict_items {V : Type} (fields : list (string * V)) : list (string * V) :=
  omap (fun k => option_map (pair k) (dict_lookup k fields)) (dict_keys [] fields).

Fixpoint py_repr (v : json) : string :=
  match v with
  | JNull => "None"
  | JBool true => "True"
  | JBool false => "False"
  | JInt z => pretty z
  | JFloat r => r
  | JStr s => repr_str s
  | JArr items => "[" +:+ join ", " (map py_repr items) +:+ "]"
  | JObj fields =>
      let shown := map (fun kv => (fst kv, py_repr (snd kv))) fields in
      "{" +:+ join ", " (map (fun kv => repr_str (fst kv) +:+ ": " +:+ snd kv)
                             (dict_items shown)) +:+ "}"
  end.

(** [str(v)], which an f-string applies to an interpolated value: a [str]
    is itself, everything else is its [repr]. *)
Definition py_str (v : json) : string :=
  match v with
  | JStr s => s
  | _ => py_repr v
  end.

(** ** Exceptions *)

Inductive exn : Type :=
| FileNotFoundError
| PermissionError
| OSError
| JSONDecodeError
| AttributeError
| TypeError
| KeyError (key : string)
| KeyboardInterrupt.

(** [except Exception] catches every class above but [KeyboardInterrupt],
    which derives from [BaseException] only. *)
Definition is_Exception (e : exn) : bool :=
  match e with KeyboardInterrupt => false | _ => true end.

(** The text [{e}] interpolates.  [str] of a [KeyError] is the [repr] of
    its key; the other messages depend on the interpreter's version and
    are stood for by the class name. *)
Definition exn_str (e : exn) : string :=
  match e with
  | FileNotFoundError => "FileNotFoundError"
  | PermissionError => "PermissionError"
  | OSError => "OSError"
  | JSONDecodeError => "JSONDecodeError"
  | AttributeError => "AttributeError"
  | TypeError => "TypeError"
  | KeyError k => repr_str k
  | KeyboardInterrupt => EmptyString
  end.

(** ** The process and its surroundings *)

(** A key of the [ACTION_MAPPINGS] dict.  [True] and [False] hash and
    compare as [1] and [0]; lists and dicts are unhashable.  (A float name
    equal to an integer name is kept apart here; no lookup with a [str]
    can tell.) *)
Inductive pykey : Type :=
| KStr (s : string)
| KInt (z : Z)
| KFloat (repr : string)
| KNone.

Definition to_key (v : json) : option pykey :=
  match v with
  | JStr s => Some (KStr s)
  | JInt z => Some (KInt z)
  | JBool b => Some (KInt (if b then 1 else 0))
  | JFloat r => Some (KFloat r)
  | JNull => Some KNone
  | JArr _ | JObj _ => None
  end.

#[global] Instance pykey_eq_dec : EqDecision pykey.
Proof. solve_decision. Defined.

Definition pykey_encode (k : pykey) : string + Z + string + unit :=
  match k with
  | KStr s => inl (inl (inl s))
  | KInt z => inl (inl (inr z))
  | KFloat r => inl (inr r)
  | KNone => inr tt
  end.

Definition pykey_decode (c : string + Z + string + unit) : pykey :=
  match c with
  | inl (inl (inl s)) => KStr s
  | inl (inl (inr z)) => KInt z
  | inl (inr r) => KFloat r
  | inr _ => KNone
  end.

#[global] Instance pykey_countable : Countable pykey.
Proof.
  apply (inj_countable' pykey_encode pykey_decode).
  intros []; reflexivity.
Defined.

(** The value stored per name: [{'command': ..., 'description': ...}]. *)
Record action : Type := { command : json; description : json }.

(** A JSON file as [open] and [json.load] see it: absent; present, but
    [open] or the read raises something other than [JSONDecodeError];
    present with text that [json.load] rejects with [JSONDecodeError]; or
    holding a value. *)
Inductive json_file : Type :=
| Missing
| Denied
| Garbled
| Holds (v : json).

(** What the file system does to an append on the queue file: nothing
    wrong, [mkdir]/[open] raises, or the write after [after] successful
    ones raises. *)
Inductive fault : Type :=
| NoFault
| OpenFails
| WriteFails (after : nat).

(** What the process does that can be seen from outside, and the one
    update of its own memory the dispatch order is about. *)
Inductive effect : Type :=
| Print (line : string)
| ReadData
| Emit (commands : list json)
| Mark (key : string)
| Sleep.

Record state : Type := {
  (* module and instance memory *)
  ACTION_MAPPINGS : gmap pykey action;
  processed_results : gset string;
  (* files *)
  OPTIONS_FILE : json_file;
  DATA_FILE : json_file;
  COMMAND_QUEUE_FILE : string;
  (* surroundings at this moment *)
  queue_fault : fault;
  clock : string;
  interrupt : bool;
  (* history, oldest first *)
  trace : list effect
}.

(** The process at start: [ACTION_MAPPINGS = {}] at import and
    [processed_results = set()] in [__init__] (whose [last_result] and
    [last_timestamp] are never read). *)
Definition initial (options : json_file) (queue : string) : state :=
  {| ACTION_MAPPINGS := ∅; processed_results := ∅;
     OPTIONS_FILE := options; DATA_FILE := Missing;
     COMMAND_QUEUE_FILE := queue;
     queue_fault := NoFault; clock := "00:00:00"; interrupt := false;
     trace := [] |}.

(** ** Statements: state passing with exceptions *)

Inductive outcome (A : Type) : Type :=
| Return (a : A)
| Raise (e : exn).
Arguments Return {A} a.
Arguments Raise {A} e.

Definition M (A : Type) : Type := state -> state * outcome A.

#[global] Instance M_ret : MRet M := fun A a st => (st, Return a).

#[global] Instance M_bind : MBind M := fun A B f m st =>
  match m st with
  | (st', Return a) => f a st'
  | (st', Raise e) => (st', Raise e)
  end.

Definition raise {A : Type} (e : exn) : M A := fun st => (st, Raise e).

(** [try: body] followed by [except] clauses: [clauses e] is the handler of
    the first clause that matches [e], if one does. *)
Definition try_catch {A : Type} (body : M A) (clauses : exn -> option (M A)) : M A :=
  fun st =>
    match body st with
    | (st', Raise e) =>
        match clauses e with
        | Some handler => handler st'
        | None => (st', Raise e)
        end
    | done => done
    end.

(** [try: body  except Exception as e: handler e]. *)
Definition try_except {A : Type} (body : M A) (handler : exn -> M A) : M A :=
  try_catch body (fun e => if is_Exception e then Some (handler e) else None).

Definition gets {A : Type} (field : state -> A) : M A :=
  fun st => (st, Return (field st)).

(** Field updates. *)
Definition set_mappings (m : gmap pykey action) (st : state) : state :=
  {| ACTION_MAPPINGS := m;
     processed_results := processed_results st;
     OPTIONS_FILE := OPTIONS_FILE st; DATA_FILE := DATA_FILE st;
     COMMAND_QUEUE_FILE := COMMAND_QUEUE_FILE st;
     queue_fault := queue_fault st; clock := clock st;
     interrupt := interrupt st; trace := trace st |}.

Definition set_processed (p : gset string) (st : state) : state :=
  {| ACTION_MAPPINGS := ACTION_MAPPINGS st;
     processed_results := p;
     OPTIONS_FILE := OPTIONS_FILE st; DATA_FILE := DATA_FILE st;
     COMMAND_QUEUE_FILE := COMMAND_QUEUE_FILE st;
     queue_fault := queue_fault st; clock := clock st;
     interrupt := interrupt st; trace := trace st |}.

Definition set_queue (q : string) (st : state) : state :=
  {| ACTION_MAPPINGS := ACTION_MAPPINGS st;
     processed_results := processed_results st;
     OPTIONS_FILE := OPTIONS_FILE st; DATA_FILE := DATA_FILE st;
     COMMAND_QUEUE_FILE := q;
     queue_fault := queue_fault st; clock := clock st;
     interrupt := interrupt st; trace := trace st |}.

Definition record (e : effect) (st : state) : state :=
  {| ACTION_MAPPINGS := ACTION_MAPPINGS st;
     processed_results := processed_results st;
     OPTIONS_FILE := OPTIONS_FILE st; DATA_FILE := DATA_FILE st;
     COMMAND_QUEUE_FILE := COMMAND_QUEUE_FILE st;
     queue_fault := queue_fault st; clock := clock st;
     interrupt := interrupt st;
     trace := trace st ++ [e] |}.

Definition perform (e : effect) : M unit := fun st => (record e st, Return tt).

(** [print(line)]; writing to the console is taken to succeed. *)
Definition print (line : string) : M unit := perform (Print line).

(** [ACTION_MAPPINGS[k] = a]. *)
Definition set_mapping (k : pykey) (a : action) : M unit := fun st =>
  (set_mappings (<[k := a]> (ACTION_MAPPINGS st)) st, Return tt).

(** [self.processed_results.add(key)]. *)
Definition add_processed (key : string) : M unit := fun st =>
  (record (Mark key) (set_processed ({[ key ]} ∪ processed_results st) st),
   Return tt).

(** [f.write(text)] on the queue file opened for append. *)
Definition append_queue (text : string) : M unit := fun st =>
  (set_queue (COMMAND_QUEUE_FILE st +:+ text) st, Return tt).

(** *** Operations on Python values *)

(** [open(path, 'r')] followed by [json.load].  [Garbled] is the
    [JSONDecodeError] case only; every other failure of the two calls is a
    [Denied] file, whose exception stands for its class. *)
Definition load_json (f : json_file) : M json :=
  match f with
  | Missing => raise FileNotFoundError
  | Denied => raise PermissionError
  | Garbled => raise JSONDecodeError
  | Holds v => mret v
  end.

(** [d.get(k, default)]: only a [dict] has the method. *)
Definition py_get (d : json) (k : string) (default : json) : M json :=
  match d with
  | JObj fields => mret (from_option id default (dict_lookup k fields))
  | _ => raise AttributeError
  end.

(** [v[k]] for a [str] subscript [k]. *)
Definition py_item (v : json) (k : string) : M json :=
  match v with
  | JObj fields =>
      match dict_lookup k fields with
      | Some x => mret x
      | None => raise (KeyError k)
      end
  | _ => raise TypeError
  end.

(** The items a [for] loop draws from [v]. *)
Definition py_iter (v : json) : M (list json) :=
  match v with
  | JArr items => mret items
  | JObj fields => mret (map JStr (dict_keys [] fields))
  | JStr s => mret (map (fun c => JStr (String c EmptyString)) (list_ascii_of_string s))
  | _ => raise TypeError
  end.

(** [v.strip()]: only a [str] has the method. *)
Definition py_strip (v : json) : M string :=
  match v with
  | JStr s => mret (strip s)
  | _ => raise AttributeError
  end.

Fixpoint for_each {A : Type} (body : A -> M unit) (items : list A) : M unit :=
  match items with
  | [] => mret tt
  | x :: rest => body x ;; for_each body rest
  end.

Definition newline : string := String (ascii_of_nat 10) EmptyString.

(** ** The program *)

(** One pass of the loop body of [load_action_mappings].  The right-hand
    side of the assignment is evaluated before the subscript of its
    target. *)
Definition store_option (option : json) : M unit :=
  cmd ← py_item option "command";
  descr ← py_item option "description";
  name ← py_item option "name";
  match to_key name with
  | Some k => set_mapping k {| command := cmd; description := descr |}
  | None => raise TypeError
  end.

Definition load_action_mappings : M bool :=
  try_except
    (file ← gets OPTIONS_FILE;
     data ← load_json file;
     options ← match data with
               | JArr _ => mret data
               | _ => py_get data "options" (JArr [])
               end;
     items ← py_iter options;
     for_each store_option items ;;
     mret true)
    (fun e => print ("Error loading options file: " +:+ exn_str e) ;; mret false).

(** [read_data_file]: Python's [None] is [JNull]. *)
Definition read_data_file : M json :=
  perform ReadData ;;
  try_catch
    (file ← gets DATA_FILE;
     match file with
     | Missing => mret JNull
     | _ => load_json file
     end)
    (fun e =>
       match e with
       | JSONDecodeError => Some (mret JNull)
       | _ =>
           if is_Exception e
           then Some (print ("Error reading file: " +:+ exn_str e) ;; mret JNull)
           else None
       end).

(** The body of [with open(COMMAND_QUEUE_FILE, 'a') as f]: [budget] is the
    number of writes the file system still accepts, when it is bounded. *)
Fixpoint write_lines (budget : option nat) (commands : list json) : M unit :=
  match commands with
  | [] => mret tt
  | cmd :: rest =>
      match cmd with
      | JStr text =>
          match budget with
          | Some 0 => raise OSError
          | _ => append_queue (text +:+ newline) ;;
                 write_lines (Nat.pred <$> budget) rest
          end
      | _ => raise TypeError
      end
  end.

Definition write_command_queue (commands : list json) : M bool :=
  perform (Emit commands) ;;
  try_except
    (disk ← gets queue_fault;
     match disk with
     | OpenFails => raise PermissionError
     | NoFault => write_lines None commands
     | WriteFails after => write_lines (Some after) commands
     end ;;
     mret true)
    (fun e => print ("Error writing command queue: " +:+ exn_str e) ;; mret false).

Definition execute_notepad_command (cmd : json) : M bool :=
  print ("  → Queued command: " +:+ py_str cmd) ;;
  write_command_queue [cmd].

(** [f"{result}_{timestamp}"]. *)
Definition result_key (result : string) (timestamp : json) : string :=
  result +:+ "_" +:+ py_str timestamp.

Definition process_result (data : json) : M bool :=
  raw ← py_get data "result" (JStr EmptyString);
  result ← py_strip raw;
  timestamp ← py_get data "timestamp" JNull;
  mods ← py_get data "mods" (JArr []);
  let key := result_key result timestamp in
  processed ← gets processed_results;
  if decide (key ∈ processed) then mret false
  else if String.eqb result EmptyString then mret false
  else
    mappings ← gets ACTION_MAPPINGS;
    match mappings !! KStr result with
    | Some act =>
        now ← gets clock;
        print (newline +:+ "[" +:+ now +:+ "] Wheel Result: " +:+ result) ;;
        print ("  Description: " +:+ py_str (description act)) ;;
        print ("  Mapped Mods: " +:+ (if truthy mods then py_str mods else "None")) ;;
        execute_notepad_command (command act) ;;
        add_processed key ;;
        mret true
    | None => mret false
    end.

(** *** The poll loop *)

(** What the surroundings are when an iteration starts: the state file the
    overlay left, the condition of the queue file, the time of day, and
    whether Ctrl-C arrives during this iteration's sleep. *)
Record tick : Type := {
  data_now : json_file;
  fault_now : fault;
  clock_now : string;
  interrupt_now : bool
}.

Definition arrive (t : tick) : M unit := fun st =>
  ({| ACTION_MAPPINGS := ACTION_MAPPINGS st;
      processed_results := processed_results st;
      OPTIONS_FILE := OPTIONS_FILE st; DATA_FILE := data_now t;
      COMMAND_QUEUE_FILE := COMMAND_QUEUE_FILE st;
      queue_fault := fault_now t; clock := clock_now t;
      interrupt := interrupt_now t;
      trace := trace st |}, Return tt).

(** [time.sleep(1)], which is where Ctrl-C is taken to arrive. *)
Definition sleep : M unit :=
  perform Sleep ;;
  stop ← gets interrupt;
  if (stop : bool) then raise KeyboardInterrupt else mret tt.

(** One pass of [while True]; the result tells whether [break] was taken. *)
Definition iteration : M bool :=
  try_catch
    (data ← read_data_file;
     (if truthy data then process_result data ;; mret tt else mret tt) ;;
     sleep ;;
     mret false)
    (fun e =>
       match e with
       | KeyboardInterrupt =>
           Some (print (newline +:+ "Shutdown requested") ;; mret true)
       | _ =>
           Some (print ("Error in main loop: " +:+ exn_str e) ;; sleep ;; mret false)
       end).

(** Where [run] stands once the given ticks are used up. *)
Inductive progress : Type :=
| Looping
| Finished.

Fixpoint poll_loop (ticks : list tick) : M progress :=
  match ticks with
  | [] => mret Looping
  | t :: rest =>
      arrive t ;;
      stop ← iteration;
      if (stop : bool) then mret Finished else poll_loop rest
  end.

Fixpoint string_times (s : string) (n : nat) : string :=
  match n with
  | O => EmptyString
  | S n' => s +:+ string_times s n'
  end.

Definition run (ticks : list tick) : M progress :=
  print "Notepad Command Executor (STUB)" ;;
  print (string_times "=" 60) ;;
  loaded ← load_action_mappings;
  if negb loaded then
    print "Failed to load action mappings" ;;
    mret Finished
  else
    mappings ← gets ACTION_MAPPINGS;
    print ("Loaded " +:+ pretty (size mappings) +:+ " wheel options for notepad") ;;
    print ("Watching for wheel results..." +:+ newline) ;;
    poll_loop ticks.

(** The exit status of [python console-executor.py]: [0] when the script
    runs off its end, [1] after a traceback; none while the loop is still
    turning, and the platform's own when the interpreter dies of an
    unhandled Ctrl-C. *)
Definition exit_status (o : outcome progress) : option Z :=
  match o with
  | Return Finished => Some 0%Z
  | Return Looping => None
  | Raise KeyboardInterrupt => None
  | Raise _ => Some 1%Z
  end.

(** [if __name__ == '__main__']. *)
Definition main (ticks : list tick) (st : state) : state * option Z :=
  let '(st', o) := run ticks st in (st', exit_status o).

(** ** Views used to state the properties *)

(** The ResultEvent that lines 120-122 of [process_result] take out of a
    snapshot: the trimmed result, the timestamp and the mods. *)
Record ResultEvent : Type := {
  result : string;
  timestamp : json;
  mods : json
}.

Definition event_of (data : json) : option ResultEvent :=
  match data with
  | JObj fields =>
      match from_option id (JStr EmptyString) (dict_lookup "result" fields) with
      | JStr s =>
          Some {| result := strip s;
                  timestamp := from_option id JNull (dict_lookup "timestamp" fields);
                  mods := from_option id (JArr []) (dict_lookup "mods" fields) |}
      | _ => None
      end
  | _ => None
  end.

Definition ResultKey (ev : ResultEvent) : string :=
  result_key (result ev) (timestamp ev).

(** What deduplication goes by: the trimmed result and the timestamp. *)
Definition identity_of (data : json) : option (string * json) :=
  (λ ev, (result ev, timestamp ev)) <$> event_of data.

(** The command batches handed to the Queue Writer, in order. *)
Definition emits (tr : list effect) : list (list json) :=
  omap (fun e => match e with Emit cmds => Some cmds | _ => None end) tr.

(** The text one [write_command_queue] call appends for [cmds]. *)
Fixpoint queue_lines (cmds : list string) : string :=
  match cmds with
  | [] => EmptyString
  | c :: rest => c +:+ newline +:+ queue_lines rest
  end.

(** Whether [write_command_queue] gets through under [disk]. *)
Fixpoint writes_ok (budget : option nat) (commands : list json) : bool :=
  match commands with
  | [] => true
  | JStr _ :: rest =>
      match budget with
      | Some 0 => false
      | _ => writes_ok (Nat.pred <$> budget) rest
      end
  | _ :: _ => false
  end.

Definition write_succeeds (disk : fault) (commands : list json) : bool :=
  match disk with
  | OpenFails => false
  | NoFault => writes_ok None commands
  | WriteFails after => writes_ok (Some after) commands
  end.

(** Some [Emit] happens in [tr] while [key] is not in the processed set,
    [marked] telling whether it is when [tr] starts. *)
Fixpoint emits_unmarked (key : string) (marked : bool) (tr : list effect) : bool :=
  match tr with
  | [] => false
  | Mark k :: rest => emits_unmarked key (marked || String.eqb k key) rest
  | Emit _ :: rest => negb marked || emits_unmarked key marked rest
  | _ :: rest => emits_unmarked key marked rest
  end.

(** One [process_result] call of a lifetime, under the surroundings [t];
    an exception it raises is the loop's to log. *)
Definition submit (call : tick * json) : M unit :=
  arrive (fst call) ;;
  try_except (process_result (snd call) ;; mret tt) (fun _ => mret tt).

(** The four lines [process_result] and [execute_notepad_command] print
    before the queue writer is called. *)
Definition announcement (now : string) (ev : ResultEvent) (act : action) : list effect :=
  [ Print (newline +:+ "[" +:+ now +:+ "] Wheel Result: " +:+ result ev);
    Print ("  Description: " +:+ py_str (description act));
    Print ("  Mapped Mods: " +:+ (if truthy (mods ev) then py_str (mods ev) else "None"));
    Print ("  → Queued command: " +:+ py_str (command act)) ].

(** How a statement over the mapping table ends does not depend on the
    state it starts from, it raises no [KeyboardInterrupt], it changes
    nothing but the table, and what it returns satisfies [Q]. *)
Definition table_only {A : Type} (Q : A → Prop) (m : M A) : Prop :=
  ∃ r : outcome A,
    match r with Raise e => is_Exception e = true | Return a => Q a end ∧
    ∀ st, ∃ table, m st = (set_mappings table st, r).

(** The lines a reader of the queue file finds in [text]: the pieces that
    end in a newline, and a last unterminated one if there is any. *)
Fixpoint lines_of (text : string) : list string :=
  match text with
  | EmptyString => []
  | String c rest =>
      if Ascii.eqb c (ascii_of_nat 10) then EmptyString :: lines_of rest
      else match lines_of rest with
           | [] => [String c EmptyString]
           | line :: more => String c line :: more
           end
  end.

(** *** Sample data *)

Definition fire_options : json :=
  JArr [JObj [("name", JStr "Fire Rune"); ("command", JStr "CAST_FIRE");
              ("description", JStr "Casts fire rune")]].

Definition fire_snapshot : json :=
  JObj [("result", JStr "Fire Rune"); ("timestamp", JStr "T1");
        ("mods", JArr [JStr "modA"])].

Definition quiet (file : json_file) : tick :=
  {| data_now := file; fault_now := NoFault; clock_now := "12:00:00";
     interrupt_now := false |}.

(** The process once [fire_options] is loaded. *)
Definition fire_loaded : state :=
  fst (load_action_mappings (initial (Holds fire_options) EmptyString)).

(** A table with two names, one of which contains the separator. *)
Definition rune_options : json :=
  JArr [JObj [("name", JStr "Fire_Rune"); ("command", JStr "CAST_FIRE");
              ("description", JStr "Casts fire rune")];
        JObj [("name", JStr "Fire"); ("command", JStr "IGNITE");
              ("description", JStr "Lights a fire")]].

Definition rune_loaded : state :=
  fst (load_action_mappings (initial (Holds rune_options) EmptyString)).

Definition underscore : ascii := ascii_of_nat 95.

(** The keys recorded in the processed set, in order. *)
Definition marks (tr : list effect) : list string :=
  omap (fun e => match e with Mark key => Some key | _ => None end) tr.

(** A process is quiet from [st] to [st'] when it handed nothing to the
    queue writer, recorded no key, and changed neither the queue file nor
    its own memory. *)
Definition quiet_step (st st' : state) : Prop :=
  COMMAND_QUEUE_FILE st' = COMMAND_QUEUE_FILE st ∧
  emits (trace st') = emits (trace st) ∧
  marks (trace st') = marks (trace st) ∧
  processed_results st' = processed_results st ∧
  ACTION_MAPPINGS st' = ACTION_MAPPINGS st.

(** The history accounts for the processed set: every command handed to
    the queue writer goes with one recorded key, no key is recorded twice,
    and the recorded keys are in the set. *)
Definition ledger_ok (st : state) : Prop :=
  NoDup (marks (trace st)) ∧
  (∀ key, key ∈ marks (trace st) → key ∈ processed_results st) ∧
  length (emits (trace st)) = length (marks (trace st)).

(** *** Views of the loader and of the queue file *)

(** What [store_option] makes of one option before it stores: the key and
    the value, or the exception raised on the way. *)
Definition parse_option (option : json) : exn + pykey * action :=
  match option with
  | JObj fields =>
      match dict_lookup "command" fields with
      | None => inl (KeyError "command")
      | Some cmd =>
          match dict_lookup "description" fields with
          | None => inl (KeyError "description")
          | Some descr =>
              match dict_lookup "name" fields with
              | None => inl (KeyError "name")
              | Some name =>
                  match to_key name with
                  | Some k => inr (k, {| command := cmd; description := descr |})
                  | None => inl TypeError
                  end
              end
          end
      end
  | _ => inl TypeError
  end.

(** The table the [for] loop of [load_action_mappings] leaves, and the
    exception that stopped it, if one did. *)
Fixpoint store_all (items : list json) (table : gmap pykey action)
    : gmap pykey action * option exn :=
  match items with
  | [] => (table, None)
  | option :: rest =>
      match parse_option option with
      | inr (k, a) => store_all rest (<[k := a]> table)
      | inl e => (table, Some e)
      end
  end.

(** The items the [for] loop of [load_action_mappings] runs over, or the
    exception raised before it starts. *)
Definition options_of (file : json_file) : exn + list json :=
  match file with
  | Missing => inl FileNotFoundError
  | Denied => inl PermissionError
  | Garbled => inl JSONDecodeError
  | Holds data =>
      let options :=
        match data with
        | JArr _ => inr data
        | JObj fields => inr (from_option id (JArr []) (dict_lookup "options" fields))
        | _ => inl AttributeError
        end in
      match options with
      | inl e => inl e
      | inr (JArr items) => inr items
      | inr (JObj fields) => inr (map JStr (dict_keys [] fields))
      | inr (JStr s) =>
          inr (map (fun c => JStr (String c EmptyString)) (list_ascii_of_string s))
      | inr _ => inl TypeError
      end
  end.

(** An option in the documented format: an object with [command],
    [description] and a [str] as [name]. *)
Definition entry_of (item : json) : option (string * action) :=
  match parse_option item with
  | inr (KStr name, a) => Some (name, a)
  | _ => None
  end.

(** The text the [str] commands of the emitted batches make up, each
    followed by a newline. *)
Fixpoint text_of_emits (batches : list (list json)) : string :=
  match batches with
  | [] => EmptyString
  | batch :: rest =>
      queue_lines (omap (fun c => match c with JStr s => Some s | _ => None end) batch)
      +:+ text_of_emits rest
  end.

(** From [st] to [st'] the table is the same, the processed set has only
    grown and the queue file has only been appended to. *)
Definition extends (st st' : state) : Prop :=
  ACTION_MAPPINGS st' = ACTION_MAPPINGS st ∧
  processed_results st ⊆ processed_results st' ∧
  ∃ text, COMMAND_QUEUE_FILE st' = COMMAND_QUEUE_FILE st +:+ text.

(** From [st] to [st'] the queue file has grown by exactly the text of the
    commands handed to the queue writer meanwhile, each followed by a
    newline. *)
Definition logged (st st' : state) : Prop :=
  ∃ batches,
    emits (trace st') = emits (trace st) ++ batches ∧
    COMMAND_QUEUE_FILE st' = COMMAND_QUEUE_FILE st +:+ text_of_emits batches.

(** * Properties *)

(** ** The Python helpers on examples *)

Example strip_examples :
  strip ("  Fire Rune " +:+ newline) = "Fire Rune" ∧
  strip (" " +:+ newline +:+ " ") = EmptyString ∧
  strip "a  b" = "a  b".
Proof. repeat split. Qed.

Example py_str_examples :
  py_str (JStr "T1") = "T1" ∧
  py_str (JInt (-17)) = "-17" ∧
  py_str JNull = "None" ∧
  py_str (JBool true) = "True" ∧
  py_str (JArr [JStr "modA"; JInt 2; JNull]) = "['modA', 2, None]" ∧
  py_str (JObj [("a", JInt 1); ("b", JStr "it's"); ("a", JFloat "2.5")])
    = "{'a': 2.5, 'b': " +:+ String (ascii_of_nat 34) "it's"
        +:+ String (ascii_of_nat 34) "}".
Proof. repeat split. Qed.

Example result_key_example :
  result_key "Fire Rune" (JStr "T1") = "Fire Rune_T1" ∧
  result_key "Fire Rune" (JInt 1700000000) = "Fire Rune_1700000000" ∧
  result_key "Fire Rune" JNull = "Fire Rune_None".
Proof. repeat split. Qed.

Example fire_loaded_table :
  ACTION_MAPPINGS fire_loaded !! KStr "Fire Rune"
    = Some {| command := JStr "CAST_FIRE"; description := JStr "Casts fire rune" |} ∧
  size (ACTION_MAPPINGS fire_loaded) = 1.
Proof. split; vm_compute; reflexivity. Qed.

(** ** Running the statements *)

Ltac step := unfold mbind, M_bind, mret, M_ret, raise, gets, print, perform, try_except, try_catch; cbn.

Lemma string_app_cons a s t : String a s +:+ t = String a (s +:+ t).
Proof. reflexivity. Qed.

Lemma string_app_assoc (s t u : string) : (s +:+ t) +:+ u = s +:+ t +:+ u.
Proof. induction s as [|a s IH]; [reflexivity|]. rewrite !string_app_cons. by f_equal. Qed.

Lemma string_app_nil_r (s : string) : s +:+ EmptyString = s.
Proof. induction s as [|a s IH]; [reflexivity|]. rewrite string_app_cons. by f_equal. Qed.

Lemma set_queue_same st : set_queue (COMMAND_QUEUE_FILE st) st = st.
Proof. by destruct st. Qed.

(** What [write_lines] leaves: only the queue file changes; it ends well
    exactly when [writes_ok] says so, and then every command is a [str] and
    all their lines are appended. *)
Lemma write_lines_eq budget cmds st :
  ∃ text o,
    write_lines budget cmds st = (set_queue (COMMAND_QUEUE_FILE st +:+ text) st, o) ∧
    match o with
    | Return _ =>
        writes_ok budget cmds = true ∧
        ∃ l, cmds = map JStr l ∧ text = queue_lines l
    | Raise e => writes_ok budget cmds = false ∧ is_Exception e = true
    end.
Proof.
  revert budget st. induction cmds as [|cmd rest IH]; intros budget st.
  - exists EmptyString, (Return tt). rewrite string_app_nil_r, set_queue_same.
    split; [reflexivity|]. split; [reflexivity|]. by exists [].
  - destruct cmd as [| | | |text| |];
      try (exists EmptyString, (Raise TypeError);
           rewrite string_app_nil_r, set_queue_same; by repeat split).
    destruct budget as [[|n]|].
    + exists EmptyString, (Raise OSError).
      rewrite string_app_nil_r, set_queue_same. by repeat split.
    + destruct (IH (Some n) (set_queue (COMMAND_QUEUE_FILE st +:+ text +:+ newline) st))
        as (more & o & Heq & Ho).
      exists ((text +:+ newline) +:+ more), o. split.
      * cbn. step. cbn in Heq. rewrite Heq. cbn. by rewrite !string_app_assoc.
      * destruct o as [[]|e]; [|exact Ho].
        destruct Ho as (Hok & l & -> & ->). split; [exact Hok|].
        exists (text :: l). split; [reflexivity|]. cbn. by rewrite !string_app_assoc.
    + destruct (IH None (set_queue (COMMAND_QUEUE_FILE st +:+ text +:+ newline) st))
        as (more & o & Heq & Ho).
      exists ((text +:+ newline) +:+ more), o. split.
      * cbn. step. cbn in Heq. rewrite Heq. cbn. by rewrite !string_app_assoc.
      * destruct o as [[]|e]; [|exact Ho].
        destruct Ho as (Hok & l & -> & ->). split; [exact Hok|].
        exists (text :: l). split; [reflexivity|]. cbn. by rewrite !string_app_assoc.
Qed.


Lemma write_command_queue_ok cmds st :
  write_succeeds (queue_fault st) cmds = true →
  ∃ l, cmds = map JStr l ∧
    write_command_queue cmds st =
      (set_queue (COMMAND_QUEUE_FILE st +:+ queue_lines l) (record (Emit cmds) st),
       Return true).
Proof.
  intros Hok. unfold write_command_queue, write_succeeds in *. step.
  destruct (queue_fault st) as [| |after]; [|discriminate|].
  - destruct (write_lines_eq None cmds (record (Emit cmds) st)) as (text & o & Heq & Ho).
    rewrite Heq. destruct o as [[]|e].
    + destruct Ho as (_ & l & -> & ->). by exists l.
    + destruct Ho as [Hno _]. congruence.
  - destruct (write_lines_eq (Some after) cmds (record (Emit cmds) st)) as (text & o & Heq & Ho).
    rewrite Heq. destruct o as [[]|e].
    + destruct Ho as (_ & l & -> & ->). by exists l.
    + destruct Ho as [Hno _]. congruence.
Qed.

Lemma write_command_queue_failed cmds st :
  write_succeeds (queue_fault st) cmds = false →
  ∃ text e,
    write_command_queue cmds st =
      (record (Print ("Error writing command queue: " +:+ exn_str e))
         (set_queue (COMMAND_QUEUE_FILE st +:+ text) (record (Emit cmds) st)),
       Return false).
Proof.
  intros Hno. unfold write_command_queue, write_succeeds in *. step.
  destruct (queue_fault st) as [| |after].
  - destruct (write_lines_eq None cmds (record (Emit cmds) st)) as (text & o & Heq & Ho).
    rewrite Heq. destruct o as [[]|e].
    + destruct Ho as [Hok _]. congruence.
    + destruct Ho as [_ ->]. by exists text, e.
  - exists EmptyString, PermissionError. cbn.
    by rewrite string_app_nil_r.
  - destruct (write_lines_eq (Some after) cmds (record (Emit cmds) st)) as (text & o & Heq & Ho).
    rewrite Heq. destruct o as [[]|e].
    + destruct Ho as [Hok _]. congruence.
    + destruct Ho as [_ ->]. by exists text, e.
Qed.

Lemma process_result_eq data st :
  process_result data st =
  match event_of data with
  | None => (st, Raise AttributeError)
  | Some ev =>
      if decide (ResultKey ev ∈ processed_results st) then (st, Return false)
      else if String.eqb (result ev) EmptyString then (st, Return false)
      else match ACTION_MAPPINGS st !! KStr (result ev) with
           | None => (st, Return false)
           | Some act =>
              ((print (newline +:+ "[" +:+ clock st +:+ "] Wheel Result: " +:+ result ev) ;;
                print ("  Description: " +:+ py_str (description act)) ;;
                print ("  Mapped Mods: " +:+ (if truthy (mods ev) then py_str (mods ev) else "None")) ;;
                execute_notepad_command (command act) ;;
                add_processed (ResultKey ev) ;;
                mret true) st)
           end
  end.
Proof.
  unfold process_result, event_of.
  destruct data; try reflexivity.
  step.
  destruct (from_option id (JStr "") (dict_lookup "result" fields)); try reflexivity.
  step. unfold ResultKey. cbn.
  destruct (decide _); [reflexivity|].
  destruct (String.eqb _ _); [reflexivity|].
  destruct (ACTION_MAPPINGS st !! _); reflexivity.
Qed.

Lemma dispatch_eq data st ev act :
  event_of data = Some ev →
  ResultKey ev ∉ processed_results st →
  result ev ≠ EmptyString →
  ACTION_MAPPINGS st !! KStr (result ev) = Some act →
  ∃ st' text errs,
    process_result data st = (st', Return true) ∧
    processed_results st' = {[ ResultKey ev ]} ∪ processed_results st ∧
    ACTION_MAPPINGS st' = ACTION_MAPPINGS st ∧
    interrupt st' = interrupt st ∧
    COMMAND_QUEUE_FILE st' = COMMAND_QUEUE_FILE st +:+ text ∧
    trace st' = trace st ++ announcement (clock st) ev act
                  ++ [Emit [command act]] ++ errs ++ [Mark (ResultKey ev)] ∧
    if write_succeeds (queue_fault st) [command act]
    then errs = [] ∧ ∃ c, command act = JStr c ∧ text = c +:+ newline
    else ∃ e, errs = [Print ("Error writing command queue: " +:+ exn_str e)].
Proof.
  intros Hev Hnew Hres Hact. rewrite process_result_eq, Hev.
  destruct (decide _) as [|_]; [done|].
  apply String.eqb_neq in Hres. rewrite Hres, Hact.
  unfold execute_notepad_command. step.
  set (st4 := record _ (record _ (record _ (record _ st)))).
  destruct (write_succeeds (queue_fault st) [command act]) eqn:Hw.
  - destruct (write_command_queue_ok [command act] st4 Hw) as (l & Hl & ->).
    destruct l as [|c [|? ?]]; try discriminate. cbn in Hl.
    assert (Hc : command act = JStr c) by congruence. clear Hl.
    eexists _, (c +:+ newline), []. cbn.
    repeat split; try reflexivity.
    all: subst st4; cbn; rewrite ?string_app_nil_r, <- ?app_assoc; eauto.
  - destruct (write_command_queue_failed [command act] st4 Hw) as (text & e & ->).
    eexists _, text, [_]. cbn.
    repeat split; try reflexivity.
    all: subst st4; cbn; rewrite <- ?app_assoc; eauto.
Qed.

Lemma read_data_file_eq st :
  read_data_file st =
  match DATA_FILE st with
  | Missing | Garbled => (record ReadData st, Return JNull)
  | Denied =>
      (record (Print ("Error reading file: " +:+ exn_str PermissionError))
         (record ReadData st), Return JNull)
  | Holds v => (record ReadData st, Return v)
  end.
Proof. unfold read_data_file. step. by destruct (DATA_FILE st). Qed.

Lemma map_JStr_inj (l1 l2 : list string) : map JStr l1 = map JStr l2 → l1 = l2.
Proof.
  revert l2. induction l1 as [|a l1 IH]; intros [|b l2] H; try discriminate.
  - reflexivity.
  - cbn in H. injection H as -> H. f_equal. by apply IH.
Qed.

Lemma writes_ok_strings (l : list string) : writes_ok None (map JStr l) = true.
Proof. induction l as [|c l IH]; [reflexivity | exact IH]. Qed.

(** ** The state reader *)



(** ** The dispatcher's refusals *)

Lemma blank_refused data ev st :
  event_of data = Some ev → result ev = EmptyString →
  process_result data st = (st, Return false).
Proof.
  intros Hev Hblank. rewrite process_result_eq, Hev, Hblank.
  by destruct (decide _).
Qed.

Lemma unmapped_refused data ev st :
  event_of data = Some ev →
  ACTION_MAPPINGS st !! KStr (result ev) = None →
  process_result data st = (st, Return false).
Proof.
  intros Hev Hnone. rewrite process_result_eq, Hev, Hnone.
  destruct (decide _); [reflexivity|].
  by destruct (String.eqb _ _).
Qed.

(** C7. An event whose result trims to the empty string is not dispatched,
    whatever its timestamp: [process_result] returns [False] and leaves the
    process, the queue file and the history as they were. *)
Theorem blank_result_not_dispatched (data : json) (ev : ResultEvent) (st : state) :
  event_of data = Some ev →
  result ev = EmptyString →
  process_result data st = (st, Return false).
Proof. apply blank_refused. Qed.

Lemma blank_result_not_dispatched_witness :
  let data := JObj [("result", JStr "   "); ("timestamp", JInt 7)] in
  let ev := {| result := EmptyString; timestamp := JInt 7; mods := JArr [] |} in
  event_of data = Some ev ∧ result ev = EmptyString ∧
  process_result data fire_loaded = (fire_loaded, Return false).
Proof.
  intros data ev.
  assert (Hev : event_of data = Some ev) by reflexivity.
  assert (Hblank : result ev = EmptyString) by reflexivity.
  split; [exact Hev|]. split; [exact Hblank|].
  exact (blank_result_not_dispatched data ev fire_loaded Hev Hblank).
Defined.

(** C8. An event whose trimmed result is not empty and not a key of the
    mapping table is not dispatched: [process_result] returns [False]
    without raising, and nothing is written. *)
Theorem unmapped_result_ignored (data : json) (ev : ResultEvent) (st : state) :
  event_of data = Some ev →
  result ev ≠ EmptyString →
  ACTION_MAPPINGS st !! KStr (result ev) = None →
  process_result data st = (st, Return false).
Proof. intros Hev _. by apply unmapped_refused. Qed.

Lemma unmapped_result_ignored_witness :
  let data := JObj [("result", JStr " Ice Rune "); ("timestamp", JStr "T1")] in
  let ev := {| result := "Ice Rune"; timestamp := JStr "T1"; mods := JArr [] |} in
  event_of data = Some ev ∧ result ev ≠ EmptyString ∧
  ACTION_MAPPINGS fire_loaded !! KStr (result ev) = None ∧
  process_result data fire_loaded = (fire_loaded, Return false).
Proof.
  intros data ev.
  assert (Hev : event_of data = Some ev) by reflexivity.
  assert (Hres : result ev ≠ EmptyString) by discriminate.
  assert (Hnone : ACTION_MAPPINGS fire_loaded !! KStr (result ev) = None)
    by (vm_compute; reflexivity).
  split; [exact Hev|]. split; [exact Hres|]. split; [exact Hnone|].
  exact (unmapped_result_ignored data ev fire_loaded Hev Hres Hnone).
Defined.

(** ** The queue writer *)

Lemma lines_of_queue_lines (cmds : list string) :
  Forall (λ c, contains_char (ascii_of_nat 10) c = false) cmds →
  lines_of (queue_lines cmds) = cmds.
Proof.
  induction 1 as [|c rest Hc _ IH]; [reflexivity|].
  cbn [queue_lines]. induction c as [|a c IHc].
  - change (lines_of (String (ascii_of_nat 10) (queue_lines rest)) = "" :: rest).
    cbn. by rewrite IH.
  - cbn in Hc. apply orb_false_iff in Hc as [Ha Hc].
    rewrite string_app_cons. cbn [lines_of].
    rewrite Ascii.eqb_sym in Ha. rewrite Ha, (IHc Hc). reflexivity.
Qed.

(** C9, as the program has it.  A [write_command_queue] call that returns
    [True] has appended, after the text the queue file already held, each
    command followed by a newline, in the order given; with nothing wrong
    on the file system the call does return [True]; the appended text is
    exactly one line per command, the commands themselves, when none of
    them contains a newline; and one dispatch of "Fire Rune", mapped to
    "CAST_FIRE", appends the single line "CAST_FIRE". *)
Theorem queue_writer_appends (cmds : list string) (st : state) :
  (∀ st', write_command_queue (map JStr cmds) st = (st', Return true) →
          COMMAND_QUEUE_FILE st' = COMMAND_QUEUE_FILE st +:+ queue_lines cmds) ∧
  (queue_fault st = NoFault →
   snd (write_command_queue (map JStr cmds) st) = Return true) ∧
  (Forall (λ c, contains_char (ascii_of_nat 10) c = false) cmds →
   lines_of (queue_lines cmds) = cmds) ∧
  (∀ q, COMMAND_QUEUE_FILE (fst (process_result fire_snapshot (set_queue q fire_loaded)))
        = q +:+ "CAST_FIRE" +:+ newline).
Proof.
  split; [|split; [|split; [apply lines_of_queue_lines|]]].
  - intros st' Hrun.
    destruct (write_succeeds (queue_fault st) (map JStr cmds)) eqn:Hw.
    + destruct (write_command_queue_ok _ st Hw) as (l & Hl & Heq).
      apply map_JStr_inj in Hl as <-. rewrite Heq in Hrun.
      injection Hrun as <-. reflexivity.
    + destruct (write_command_queue_failed _ st Hw) as (text & e & Heq).
      rewrite Heq in Hrun. discriminate.
  - intros Hdisk.
    assert (Hw : write_succeeds (queue_fault st) (map JStr cmds) = true)
      by (rewrite Hdisk; apply writes_ok_strings).
    destruct (write_command_queue_ok _ st Hw) as (l & _ & ->). reflexivity.
  - intros q. vm_compute. reflexivity.
Qed.

Lemma queue_writer_appends_witness :
  let st := set_queue ("OLD" +:+ newline) fire_loaded in
  let st' := fst (write_command_queue (map JStr ["A"; "B"]) st) in
  write_command_queue (map JStr ["A"; "B"]) st = (st', Return true) ∧
  queue_fault st = NoFault ∧
  COMMAND_QUEUE_FILE st' = COMMAND_QUEUE_FILE st +:+ queue_lines ["A"; "B"] ∧
  lines_of (COMMAND_QUEUE_FILE st') = ["OLD"; "A"; "B"].
Proof.
  intros st st'.
  assert (Hrun : write_command_queue (map JStr ["A"; "B"]) st = (st', Return true))
    by (vm_compute; reflexivity).
  split; [exact Hrun|]. split; [reflexivity|].
  split; [exact (proj1 (queue_writer_appends ["A"; "B"] st) st' Hrun)|].
  vm_compute. reflexivity.
Defined.

(** C9, as stated, fails: a command is written as it is, so the one command
    made of "A", a newline and "B" is appended by a successful call as the
    two lines "A" and "B". *)
Lemma queue_writer_lines_counterexample :
  let cmd := "A" +:+ newline +:+ "B" in
  ∃ st',
    write_command_queue [JStr cmd] fire_loaded = (st', Return true) ∧
    COMMAND_QUEUE_FILE st' = COMMAND_QUEUE_FILE fire_loaded +:+ cmd +:+ newline ∧
    lines_of (COMMAND_QUEUE_FILE st') = ["A"; "B"] ∧
    length (lines_of (COMMAND_QUEUE_FILE st')) ≠ length [cmd].
Proof.
  intros cmd. eexists. split; [vm_compute; reflexivity|].
  split; [reflexivity|]. split; [reflexivity | discriminate].
Qed.

(** ** Order of the write and the record *)

(** Whatever [process_result] does not dispatch, it leaves untouched. *)
Lemma process_result_cases data st :
  (event_of data = None ∧ process_result data st = (st, Raise AttributeError)) ∨
  (∃ ev, event_of data = Some ev ∧
         ((ResultKey ev ∈ processed_results st) ∨ result ev = EmptyString ∨
          ACTION_MAPPINGS st !! KStr (result ev) = None) ∧
         process_result data st = (st, Return false)) ∨
  (∃ ev act, event_of data = Some ev ∧
         (ResultKey ev ∉ processed_results st) ∧ result ev ≠ EmptyString ∧
         ACTION_MAPPINGS st !! KStr (result ev) = Some act ∧
         ∃ st', process_result data st = (st', Return true)).
Proof.
  destruct (event_of data) as [ev|] eqn:Hev.
  - right. destruct (decide (ResultKey ev ∈ processed_results st)) as [Hin|Hnew].
    { left. exists ev. split; [done|]. split; [by left|].
      rewrite process_result_eq, Hev. by destruct (decide _). }
    destruct (String.eqb_spec (result ev) EmptyString) as [Hblank|Hres].
    { left. exists ev. split; [done|]. split; [right; by left|].
      by apply (blank_refused data ev). }
    destruct (ACTION_MAPPINGS st !! KStr (result ev)) as [act|] eqn:Hact.
    + right. exists ev, act. repeat (split; [done|]).
      destruct (dispatch_eq data st ev act Hev Hnew Hres Hact) as (st' & ? & ? & Hrun & _).
      by exists st'.
    + left. exists ev. split; [done|]. split; [right; by right|].
      by apply (unmapped_refused data ev).
  - left. split; [done|]. by rewrite process_result_eq, Hev.
Qed.

Lemma dispatched_inv data st st' :
  process_result data st = (st', Return true) →
  ∃ ev act, event_of data = Some ev ∧
    (ResultKey ev ∉ processed_results st) ∧ result ev ≠ EmptyString ∧
    ACTION_MAPPINGS st !! KStr (result ev) = Some act.
Proof.
  intros Hrun.
  destruct (process_result_cases data st)
    as [[_ Heq] | [(ev & _ & _ & Heq) | (ev & act & ? & ? & ? & ? & _)]];
    [congruence | congruence | by exists ev, act].
Qed.

(** C2, as the program has it.  In every dispatching execution of
    [process_result] the command is handed to the queue writer first, while
    the event's ResultKey is still absent from the processed set, and the
    key is recorded right after the writer returns, whether the write went
    through or failed. *)
Theorem dispatch_emits_then_records (data : json) (st st' : state) :
  process_result data st = (st', Return true) →
  ∃ ev act errs,
    event_of data = Some ev ∧
    ACTION_MAPPINGS st !! KStr (result ev) = Some act ∧
    (ResultKey ev ∉ processed_results st) ∧
    trace st' = trace st ++ announcement (clock st) ev act
                  ++ [Emit [command act]] ++ errs ++ [Mark (ResultKey ev)] ∧
    (errs = [] ∨ ∃ e, errs = [Print ("Error writing command queue: " +:+ exn_str e)]) ∧
    processed_results st' = {[ ResultKey ev ]} ∪ processed_results st.
Proof.
  intros Hrun.
  destruct (dispatched_inv data st st' Hrun) as (ev & act & Hev & Hnew & Hres & Hact).
  destruct (dispatch_eq data st ev act Hev Hnew Hres Hact)
    as (st2 & text & errs & Hrun2 & Hproc & _ & _ & _ & Htrace & Hw).
  assert (st2 = st') as -> by congruence.
  exists ev, act, errs. repeat (split; [done|]). split; [|done].
  destruct (write_succeeds _ _); [left; apply Hw | right; apply Hw].
Qed.

Lemma dispatch_emits_then_records_witness :
  let st' := fst (process_result fire_snapshot fire_loaded) in
  process_result fire_snapshot fire_loaded = (st', Return true) ∧
  ∃ ev act errs,
    event_of fire_snapshot = Some ev ∧
    ACTION_MAPPINGS fire_loaded !! KStr (result ev) = Some act ∧
    (ResultKey ev ∉ processed_results fire_loaded) ∧
    trace st' = trace fire_loaded ++ announcement (clock fire_loaded) ev act
                  ++ [Emit [command act]] ++ errs ++ [Mark (ResultKey ev)] ∧
    (errs = [] ∨ ∃ e, errs = [Print ("Error writing command queue: " +:+ exn_str e)]) ∧
    processed_results st' = {[ ResultKey ev ]} ∪ processed_results fire_loaded.
Proof.
  intros st'.
  assert (Hrun : process_result fire_snapshot fire_loaded = (st', Return true))
    by (vm_compute; reflexivity).
  split; [exact Hrun|].
  exact (dispatch_emits_then_records fire_snapshot fire_loaded st' Hrun).
Defined.

(** C2, as stated, fails: dispatching "Fire Rune" hands the command to the
    queue writer while the key "Fire Rune_T1" is not yet in the processed
    set; the key is recorded only afterwards. *)
Lemma record_before_emit_counterexample :
  ∃ st',
    process_result fire_snapshot fire_loaded = (st', Return true) ∧
    ("Fire Rune_T1" ∉ processed_results fire_loaded) ∧
    trace st' =
      [ Print (newline +:+ "[00:00:00] Wheel Result: Fire Rune");
        Print "  Description: Casts fire rune";
        Print "  Mapped Mods: ['modA']";
        Print "  → Queued command: CAST_FIRE";
        Emit [JStr "CAST_FIRE"];
        Mark "Fire Rune_T1" ] ∧
    emits_unmarked "Fire Rune_T1" false (trace st') = true.
Proof.
  eexists. split; [vm_compute; reflexivity|].
  split; [vm_compute; set_solver|].
  split; reflexivity.
Qed.

(** ** The deduplication key *)

Lemma contains_char_app c s t : contains_char c (s +:+ String c t) = true.
Proof.
  induction s as [|a s IH].
  - change (contains_char c (String c t) = true). cbn.
    by rewrite Ascii.eqb_refl.
  - rewrite string_app_cons. cbn. rewrite IH. apply orb_true_r.
Qed.

(** The key splits at its first separator when no result contains one. *)
Lemma key_split_results r1 r2 t1 t2 :
  contains_char underscore r1 = false →
  contains_char underscore r2 = false →
  r1 +:+ "_" +:+ t1 = r2 +:+ "_" +:+ t2 →
  r1 = r2 ∧ t1 = t2.
Proof.
  revert r2. induction r1 as [|a r1 IH]; intros [|b r2] H1 H2 Heq.
  - cbn in Heq. by injection Heq.
  - cbn in Heq, H2. rewrite string_app_cons in Heq. injection Heq as <- _.
    discriminate H2.
  - cbn in Heq, H1. rewrite string_app_cons in Heq. injection Heq as -> _.
    discriminate H1.
  - rewrite !string_app_cons in Heq. injection Heq as -> Heq.
    cbn in H1, H2. apply orb_false_iff in H1 as [_ H1], H2 as [_ H2].
    destruct (IH r2 H1 H2 Heq) as [-> ->]. done.
Qed.

(** The key splits at its last separator when no timestamp contains one. *)
Lemma key_split_timestamps r1 r2 t1 t2 :
  contains_char underscore t1 = false →
  contains_char underscore t2 = false →
  r1 +:+ "_" +:+ t1 = r2 +:+ "_" +:+ t2 →
  r1 = r2 ∧ t1 = t2.
Proof.
  intros H1 H2. revert r2. induction r1 as [|a r1 IH]; intros [|b r2] Heq.
  - cbn in Heq. by injection Heq.
  - rewrite string_app_cons in Heq. injection Heq as _ Heq.
    change (t1 = r2 +:+ String underscore t2) in Heq.
    by rewrite Heq, contains_char_app in H1.
  - rewrite string_app_cons in Heq. injection Heq as _ Heq.
    change (r1 +:+ String underscore t1 = t2) in Heq.
    by rewrite <- Heq, contains_char_app in H2.
  - rewrite !string_app_cons in Heq. injection Heq as -> Heq.
    destruct (IH r2 Heq) as [-> ->]. done.
Qed.

(** C3, as the program has it.  Two events have different ResultKeys when
    their trimmed results differ or their timestamps have different texts,
    provided neither trimmed result contains the separator "_", or
    neither timestamp text does. *)
Theorem result_key_injective (ev1 ev2 : ResultEvent) :
  (contains_char underscore (result ev1) = false ∧
   contains_char underscore (result ev2) = false) ∨
  (contains_char underscore (py_str (timestamp ev1)) = false ∧
   contains_char underscore (py_str (timestamp ev2)) = false) →
  result ev1 ≠ result ev2 ∨ py_str (timestamp ev1) ≠ py_str (timestamp ev2) →
  ResultKey ev1 ≠ ResultKey ev2.
Proof.
  intros Hclean Hdiff Heq. unfold ResultKey, result_key in Heq.
  assert (result ev1 = result ev2 ∧ py_str (timestamp ev1) = py_str (timestamp ev2))
    as [Hr Ht].
  { destruct Hclean as [[H1 H2] | [H1 H2]].
    - by apply key_split_results.
    - by apply key_split_timestamps. }
  by destruct Hdiff.
Qed.

Lemma result_key_injective_witness :
  let ev1 := {| result := "Fire Rune"; timestamp := JStr "T1"; mods := JArr [] |} in
  let ev2 := {| result := "Fire Rune"; timestamp := JInt 2; mods := JArr [] |} in
  ((contains_char underscore (result ev1) = false ∧
    contains_char underscore (result ev2) = false) ∨
   (contains_char underscore (py_str (timestamp ev1)) = false ∧
    contains_char underscore (py_str (timestamp ev2)) = false)) ∧
  (result ev1 ≠ result ev2 ∨ py_str (timestamp ev1) ≠ py_str (timestamp ev2)) ∧
  ResultKey ev1 ≠ ResultKey ev2.
Proof.
  intros ev1 ev2.
  assert (Hclean :
    (contains_char underscore (result ev1) = false ∧
     contains_char underscore (result ev2) = false) ∨
    (contains_char underscore (py_str (timestamp ev1)) = false ∧
     contains_char underscore (py_str (timestamp ev2)) = false))
    by (left; split; reflexivity).
  assert (Hdiff : result ev1 ≠ result ev2 ∨
                  py_str (timestamp ev1) ≠ py_str (timestamp ev2))
    by (right; vm_compute; discriminate).
  split; [exact Hclean|]. split; [exact Hdiff|].
  exact (result_key_injective ev1 ev2 Hclean Hdiff).
Defined.

(** C3, as stated, fails.  ("Fire_Rune", "1") and ("Fire", "Rune_1") are
    different events with the one key "Fire_Rune_1", and once the first is
    dispatched the second, though mapped and new, is refused; the timestamps
    [1] and ["1"] of one result collide as well. *)
Lemma result_key_collision_counterexample :
  let d1 := JObj [("result", JStr "Fire_Rune"); ("timestamp", JStr "1")] in
  let d2 := JObj [("result", JStr "Fire"); ("timestamp", JStr "Rune_1")] in
  ∃ ev1 ev2 st1,
    event_of d1 = Some ev1 ∧ event_of d2 = Some ev2 ∧
    (result ev1, timestamp ev1) ≠ (result ev2, timestamp ev2) ∧
    ResultKey ev1 = ResultKey ev2 ∧
    process_result d1 rune_loaded = (st1, Return true) ∧
    snd (process_result d2 rune_loaded) = Return true ∧
    process_result d2 st1 = (st1, Return false) ∧
    JInt 1 ≠ JStr "1" ∧ result_key "Fire" (JInt 1) = result_key "Fire" (JStr "1").
Proof.
  intros d1 d2. eexists _, _, _.
  split; [reflexivity|]. split; [reflexivity|].
  split; [discriminate|]. split; [reflexivity|].
  split; [vm_compute; reflexivity|].
  split; [vm_compute; reflexivity|].
  split; [vm_compute; reflexivity|].
  split; [discriminate | reflexivity].
Qed.

(** ** Loading the mapping table *)

Lemma set_mappings_same st : set_mappings (ACTION_MAPPINGS st) st = st.
Proof. by destruct st. Qed.

Lemma table_only_raise {A : Type} (Q : A → Prop) (e : exn) :
  is_Exception e = true → table_only Q (raise e).
Proof.
  intros He. exists (Raise e). split; [exact He|].
  intros st. exists (ACTION_MAPPINGS st). by rewrite set_mappings_same.
Qed.

Lemma table_only_ret {A : Type} (Q : A → Prop) (a : A) :
  Q a → table_only Q (mret a : M A).
Proof.
  intros Ha. exists (Return a). split; [exact Ha|].
  intros st. exists (ACTION_MAPPINGS st). by rewrite set_mappings_same.
Qed.

Lemma table_only_bind {A B : Type} (Q : A → Prop) (R : B → Prop)
    (m : M A) (k : A → M B) :
  table_only Q m → (∀ a, Q a → table_only R (k a)) → table_only R (m ≫= k).
Proof.
  intros (r & Hr & Hm) Hk. destruct r as [a|e].
  - destruct (Hk a Hr) as (r2 & Hr2 & Hka). exists r2. split; [exact Hr2|].
    intros st. destruct (Hm st) as (t1 & Heq1).
    destruct (Hka (set_mappings t1 st)) as (t2 & Heq2).
    exists t2. unfold mbind, M_bind. by rewrite Heq1, Heq2.
  - exists (Raise e). split; [exact Hr|].
    intros st. destruct (Hm st) as (t1 & Heq1).
    exists t1. unfold mbind, M_bind. by rewrite Heq1.
Qed.

Lemma table_only_py_item v k : table_only (λ _, True) (py_item v k).
Proof.
  destruct v; try by apply table_only_raise.
  cbn. destruct (dict_lookup k fields);
    [by apply table_only_ret | by apply table_only_raise].
Qed.

Lemma table_only_store_option option : table_only (λ _, True) (store_option option).
Proof.
  unfold store_option.
  eapply table_only_bind; [apply table_only_py_item|]. intros cmd _.
  eapply table_only_bind; [apply table_only_py_item|]. intros descr _.
  eapply table_only_bind; [apply table_only_py_item|]. intros name _.
  destruct (to_key name) as [k|]; [|by apply table_only_raise].
  exists (Return tt). split; [exact I|]. intros st. by eexists.
Qed.

Lemma table_only_for_each items :
  table_only (λ _, True) (for_each store_option items).
Proof.
  induction items as [|option rest IH]; [by apply table_only_ret|].
  cbn. eapply table_only_bind; [apply table_only_store_option | by intros _ _].
Qed.

(** [load_action_mappings] never raises; whether it returns [True] is
    decided by the options file alone; it touches only the table, and on
    failure prints one line. *)
Lemma load_action_mappings_eq (file : json_file) :
  ∃ r : option exn, ∀ st, OPTIONS_FILE st = file →
    ∃ table,
      load_action_mappings st =
      match r with
      | None => (set_mappings table st, Return true)
      | Some e =>
          (record (Print ("Error loading options file: " +:+ exn_str e))
             (set_mappings table st), Return false)
      end.
Proof.
  assert (Hbody : table_only (λ b, b = true)
            (data ← load_json file;
             options ← match data with
                       | JArr _ => mret data
                       | _ => py_get data "options" (JArr [])
                       end;
             items ← py_iter options;
             for_each store_option items ;; mret true)).
  { eapply (table_only_bind (λ _, True)).
    { destruct file; try (by apply table_only_raise). by apply table_only_ret. }
    intros data _. eapply (table_only_bind (λ _, True)).
    { destruct data; try (by apply table_only_raise); by apply table_only_ret. }
    intros options _. eapply (table_only_bind (λ _, True)).
    { destruct options; try (by apply table_only_raise); by apply table_only_ret. }
    intros items _. eapply table_only_bind; [apply table_only_for_each|].
    intros _ _. by apply table_only_ret. }
  destruct Hbody as (r & Hr & Hrun). destruct r as [b|e].
  - exists None. intros st Hfile. destruct (Hrun st) as (table & Heq).
    exists table. unfold load_action_mappings. step. rewrite Hfile.
    unfold mbind, M_bind, mret, M_ret in Heq. by rewrite Heq, Hr.
  - exists (Some e). intros st Hfile. destruct (Hrun st) as (table & Heq).
    exists table. unfold load_action_mappings. step. rewrite Hfile.
    unfold mbind, M_bind, mret, M_ret in Heq. by rewrite Heq, Hr.
Qed.

Lemma load_outcome_by_file st st' :
  OPTIONS_FILE st = OPTIONS_FILE st' →
  snd (load_action_mappings st) = snd (load_action_mappings st').
Proof.
  intros Hfile.
  destruct (load_action_mappings_eq (OPTIONS_FILE st)) as (r & Hload).
  destruct (Hload st eq_refl) as (t1 & ->).
  destruct (Hload st' (eq_sym Hfile)) as (t2 & ->).
  by destruct r.
Qed.

(** ** Startup *)

Lemma run_eq ticks st :
  run ticks st =
  match load_action_mappings
          (record (Print (string_times "=" 60))
             (record (Print "Notepad Command Executor (STUB)") st)) with
  | (st1, Return true) =>
      poll_loop ticks
        (record (Print ("Watching for wheel results..." +:+ newline))
           (record (Print ("Loaded " +:+ pretty (size (ACTION_MAPPINGS st1))
                           +:+ " wheel options for notepad")) st1))
  | (st1, Return false) =>
      (record (Print "Failed to load action mappings") st1, Return Finished)
  | (st1, Raise e) => (st1, Raise e)
  end.
Proof.
  unfold run, mbind, M_bind, print, perform.
  by destruct (load_action_mappings _) as [st1 [[]|e]].
Qed.

(** C4, as the program has it.  When [load_action_mappings] returns
    [False], [run] prints the loader's error and "Failed to load action
    mappings" and returns without a single poll, sleep or write, and the
    script ends with exit status 0. *)
Theorem startup_failure_stops (st : state) (ticks : list tick) :
  snd (load_action_mappings st) = Return false →
  ∃ st' e,
    run ticks st = (st', Return Finished) ∧
    snd (main ticks st) = Some 0%Z ∧
    trace st' = trace st ++
      [ Print "Notepad Command Executor (STUB)";
        Print (string_times "=" 60);
        Print ("Error loading options file: " +:+ exn_str e);
        Print "Failed to load action mappings" ] ∧
    COMMAND_QUEUE_FILE st' = COMMAND_QUEUE_FILE st.
Proof.
  intros Hfail.
  set (st0 := record (Print (string_times "=" 60))
                (record (Print "Notepad Command Executor (STUB)") st)).
  assert (Hfail0 : snd (load_action_mappings st0) = Return false)
    by (rewrite <- Hfail; by apply load_outcome_by_file).
  destruct (load_action_mappings_eq (OPTIONS_FILE st0)) as (r & Hload).
  destruct (Hload st0 eq_refl) as (table & Heq).
  destruct r as [e|]; [|rewrite Heq in Hfail0; discriminate].
  assert (Hrun : run ticks st =
    (record (Print "Failed to load action mappings")
       (record (Print ("Error loading options file: " +:+ exn_str e))
          (set_mappings table st0)), Return Finished)).
  { rewrite run_eq. fold st0. by rewrite Heq. }
  eexists _, e. split; [exact Hrun|]. split.
  - unfold main. by rewrite Hrun.
  - split; [|reflexivity]. cbn. by rewrite <- !app_assoc.
Qed.

Lemma startup_failure_stops_witness :
  let st := initial Garbled EmptyString in
  let ticks := [quiet (Holds fire_snapshot)] in
  snd (load_action_mappings st) = Return false ∧
  ∃ st' e,
    run ticks st = (st', Return Finished) ∧
    snd (main ticks st) = Some 0%Z ∧
    trace st' = trace st ++
      [ Print "Notepad Command Executor (STUB)";
        Print (string_times "=" 60);
        Print ("Error loading options file: " +:+ exn_str e);
        Print "Failed to load action mappings" ] ∧
    COMMAND_QUEUE_FILE st' = COMMAND_QUEUE_FILE st.
Proof.
  intros st ticks.
  assert (Hfail : snd (load_action_mappings st) = Return false) by reflexivity.
  split; [exact Hfail|].
  exact (startup_failure_stops st ticks Hfail).
Defined.

(** C4, as stated, fails on the exit status: with the options file
    missing the loader returns [False] and the script ends with status 0. *)
Lemma startup_failure_exit_counterexample :
  let st := initial Missing EmptyString in
  snd (load_action_mappings st) = Return false ∧
  snd (main [quiet (Holds fire_snapshot)] st) = Some 0%Z ∧
  ¬ (∃ z, snd (main [quiet (Holds fire_snapshot)] st) = Some z ∧ z ≠ 0%Z).
Proof.
  intros st. split; [reflexivity|]. split; [reflexivity|].
  intros (z & Hz & Hnz). vm_compute in Hz. congruence.
Qed.

(** ** One pass of the loop *)

Lemma quiet_step_refl st : quiet_step st st.
Proof. by repeat split. Qed.

Lemma quiet_step_trans st1 st2 st3 :
  quiet_step st1 st2 → quiet_step st2 st3 → quiet_step st1 st3.
Proof.
  intros (? & ? & ? & ? & ?) (? & ? & ? & ? & ?). repeat split; congruence.
Qed.

Lemma quiet_step_record e st :
  match e with Emit _ | Mark _ => False | _ => True end →
  quiet_step st (record e st).
Proof.
  intros He. repeat split; cbn; unfold emits, marks; rewrite omap_app;
    destruct e; try done; cbn; apply app_nil_r.
Qed.

Lemma not_dispatched_unchanged data st st' o :
  process_result data st = (st', o) → o ≠ Return true → st' = st.
Proof.
  intros Hrun Ho.
  destruct (process_result_cases data st)
    as [[_ Heq] | [(ev & _ & _ & Heq) | (ev & act & _ & _ & _ & _ & st2 & Heq)]];
    congruence.
Qed.

Lemma process_result_no_interrupt data st :
  snd (process_result data st) ≠ Raise KeyboardInterrupt.
Proof.
  destruct (process_result_cases data st)
    as [[_ Heq] | [(ev & _ & _ & Heq) | (ev & act & _ & _ & _ & _ & st2 & Heq)]];
    by rewrite Heq.
Qed.

Lemma process_result_interrupt_flag data st :
  interrupt (fst (process_result data st)) = interrupt st.
Proof.
  destruct (process_result_cases data st)
    as [[_ Heq] | [(ev & _ & _ & Heq) | (ev & act & Hev & Hnew & Hres & Hact & _)]];
    try by rewrite Heq.
  destruct (dispatch_eq data st ev act Hev Hnew Hres Hact)
    as (st' & ? & ? & -> & _ & _ & Hint & _). exact Hint.
Qed.

(** The shape of one pass: the read, then at most one [process_result]
    call on the value read, then the sleep and what the handlers print.
    Without Ctrl-C the pass ends without [break] and without raising. *)
Ltac quiet :=
  repeat first
    [ apply quiet_step_refl
    | eapply quiet_step_trans; [|by apply quiet_step_record] ].

Lemma iteration_shape st :
  ∃ st1 st2 st3 o,
    iteration st = (st3, o) ∧
    quiet_step st st1 ∧ interrupt st1 = interrupt st ∧
    (st2 = st1 ∨
     ∃ d, DATA_FILE st = Holds d ∧ truthy d = true ∧
          st2 = fst (process_result d st1)) ∧
    quiet_step st2 st3 ∧
    (interrupt st = false → o = Return false).
Proof.
  unfold iteration, sleep. step. rewrite read_data_file_eq.
  assert (Hidle : ∀ st3 o, quiet_step st st3 →
            (interrupt st = false → o = Return false) →
            ∃ st1 st2 st3' o',
              (st3, o) = (st3', o') ∧ quiet_step st st1 ∧
              interrupt st1 = interrupt st ∧
              (st2 = st1 ∨
               ∃ d, DATA_FILE st = Holds d ∧ truthy d = true ∧
                    st2 = fst (process_result d st1)) ∧
              quiet_step st2 st3' ∧ (interrupt st = false → o' = Return false)).
  { intros st3 o Hq Ho. exists st, st, st3, o.
    split; [done|]. split; [apply quiet_step_refl|]. split; [done|].
    split; [by left|]. by split. }
  destruct (DATA_FILE st) as [| | |d] eqn:Hfile; cbn.
  1-3: destruct (interrupt st) eqn:Hint; cbn; (apply Hidle; [quiet | done]).
  destruct (truthy d) eqn:Htruthy; cbn;
    [|destruct (interrupt st) eqn:Hint; cbn; (apply Hidle; [quiet | done])].
  pose proof (process_result_no_interrupt d (record ReadData st)) as Hnoint.
  pose proof (process_result_interrupt_flag d (record ReadData st)) as Hflag.
  destruct (process_result d (record ReadData st)) as [st2 [b|e]] eqn:Hrun;
    cbn in Hnoint, Hflag; cbn.
  - destruct (interrupt st2) eqn:Hint; cbn;
      exists (record ReadData st), st2; eexists _, _;
      (split; [reflexivity|]);
      (split; [by apply quiet_step_record|]);
      (split; [reflexivity|]);
      (split; [right; exists d; by rewrite Hrun|]);
      (split; [quiet | congruence]).
  - destruct e; try done;
      destruct (interrupt st2) eqn:Hint; cbn;
      exists (record ReadData st), st2; eexists _, _;
      (split; [reflexivity|]);
      (split; [by apply quiet_step_record|]);
      (split; [reflexivity|]);
      (split; [right; exists d; by rewrite Hrun|]);
      (split; [quiet | congruence]).
Qed.

(** ** The poll loop *)

Lemma poll_loop_eq t rest st :
  poll_loop (t :: rest) st =
  match iteration (fst (arrive t st)) with
  | (st3, Return true) => (st3, Return Finished)
  | (st3, Return false) => poll_loop rest st3
  | (st3, Raise e) => (st3, Raise e)
  end.
Proof.
  cbn. unfold mbind, M_bind. cbn.
  by destruct (iteration _) as [st3 [[]|e]].
Qed.

Lemma quiet_step_arrive t st : quiet_step st (fst (arrive t st)).
Proof. by repeat split. Qed.

(** While no [process_result] call can change anything, the loop is quiet,
    however long it turns and however it ends. *)
Lemma poll_loop_idle ticks st :
  (∀ t d s, t ∈ ticks → data_now t = Holds d →
            processed_results s = processed_results st →
            ACTION_MAPPINGS s = ACTION_MAPPINGS st →
            fst (process_result d s) = s) →
  quiet_step st (fst (poll_loop ticks st)).
Proof.
  revert st. induction ticks as [|t rest IH]; intros st Hidle.
  { apply quiet_step_refl. }
  rewrite poll_loop_eq.
  destruct (iteration_shape (fst (arrive t st)))
    as (st1 & st2 & st3 & o & -> & Hq1 & _ & Hmid & Hq3 & _).
  assert (Hq01 : quiet_step st st1)
    by (eapply quiet_step_trans; [apply quiet_step_arrive | exact Hq1]).
  assert (st2 = st1) as ->.
  { destruct Hmid as [-> | (d & Hd & _ & ->)]; [done|].
    destruct Hq01 as (_ & _ & _ & Hp & Hm).
    apply (Hidle t d st1); [by left | exact Hd | exact Hp | exact Hm]. }
  assert (Hq03 : quiet_step st st3) by (by eapply quiet_step_trans).
  destruct o as [[]|e]; cbn; try exact Hq03.
  eapply quiet_step_trans; [exact Hq03|]. apply IH.
  intros t' d s Hin Hd Hp Hm. destruct Hq03 as (_ & _ & _ & Hp3 & Hm3).
  apply (Hidle t' d s); [by right | exact Hd | congruence | congruence].
Qed.

(** ** An options file without [options] *)

(** C10. When the options file parses as an object with no [options]
    member, [load_action_mappings] returns [True] and leaves the mapping
    table empty; [run] goes on into the poll loop, and whatever the polls
    bring, nothing is ever handed to the queue writer and the queue file
    stays as it was. *)
Theorem options_member_missing (fields : list (string * json)) (queue : string)
    (ticks : list tick) :
  dict_lookup "options" fields = None →
  let st := initial (Holds (JObj fields)) queue in
  load_action_mappings st = (st, Return true) ∧
  ACTION_MAPPINGS st = ∅ ∧
  (∃ st0, run ticks st = poll_loop ticks st0 ∧ ACTION_MAPPINGS st0 = ∅) ∧
  emits (trace (fst (run ticks st))) = [] ∧
  COMMAND_QUEUE_FILE (fst (run ticks st)) = queue.
Proof.
  intros Hnone st.
  assert (Hload : ∀ s, OPTIONS_FILE s = Holds (JObj fields) →
            load_action_mappings s = (s, Return true)).
  { intros s Hs. unfold load_action_mappings. step. rewrite Hs. cbn.
    by rewrite Hnone. }
  split; [by apply Hload|]. split; [reflexivity|].
  set (st0 := record (Print ("Watching for wheel results..." +:+ newline))
       (record (Print ("Loaded " +:+ pretty (size (ACTION_MAPPINGS st))
                       +:+ " wheel options for notepad"))
          (record (Print (string_times "=" 60))
             (record (Print "Notepad Command Executor (STUB)") st)))).
  assert (Hrun : run ticks st = poll_loop ticks st0).
  { rewrite run_eq. by rewrite Hload. }
  assert (Hquiet : quiet_step st0 (fst (poll_loop ticks st0))).
  { apply poll_loop_idle. intros t d s _ _ _ Hm.
    destruct (process_result d s) as [s' o] eqn:Hp. cbn.
    apply (not_dispatched_unchanged d s s' o Hp). intros ->.
    destruct (dispatched_inv d s s' Hp) as (ev & act & _ & _ & _ & Hact).
    rewrite Hm in Hact. cbn in Hact. by rewrite lookup_empty in Hact. }
  split; [by exists st0|]. rewrite Hrun.
  destruct Hquiet as (Hq & He & _). by rewrite Hq, He.
Qed.

Lemma options_member_missing_witness :
  let fields := [("wheel", JArr [])] in
  let ticks := [quiet (Holds fire_snapshot); quiet Missing] in
  let st := initial (Holds (JObj fields)) EmptyString in
  dict_lookup "options" fields = None ∧
  load_action_mappings st = (st, Return true) ∧
  ACTION_MAPPINGS st = ∅ ∧
  (∃ st0, run ticks st = poll_loop ticks st0 ∧ ACTION_MAPPINGS st0 = ∅) ∧
  emits (trace (fst (run ticks st))) = [] ∧
  COMMAND_QUEUE_FILE (fst (run ticks st)) = EmptyString.
Proof.
  intros fields ticks st.
  assert (Hnone : dict_lookup "options" fields = None) by reflexivity.
  split; [exact Hnone|].
  exact (options_member_missing fields EmptyString ticks Hnone).
Defined.

(** ** At most once *)

Lemma submit_eq call st :
  submit call st =
  (fst (process_result (snd call) (fst (arrive (fst call) st))), Return tt).
Proof.
  unfold submit. step.
  pose proof (process_result_no_interrupt (snd call) (fst (arrive (fst call) st))) as Hno.
  cbn in Hno.
  destruct (process_result _ _) as [s [b|e]]; [done|].
  cbn in *. by destruct e.
Qed.

Lemma for_each_submit_cons call rest st :
  for_each submit (call :: rest) st = for_each submit rest (fst (submit call st)).
Proof. cbn. unfold mbind, M_bind. by rewrite submit_eq. Qed.

(** The processed set only grows. *)
Lemma process_result_grows data st :
  processed_results st ⊆ processed_results (fst (process_result data st)).
Proof.
  destruct (process_result_cases data st)
    as [[_ Heq] | [(ev & _ & _ & Heq) | (ev & act & Hev & Hnew & Hres & Hact & _)]];
    try by rewrite Heq.
  destruct (dispatch_eq data st ev act Hev Hnew Hres Hact)
    as (st' & ? & ? & Heq & Hp & _).
  rewrite Heq. cbn. rewrite Hp. apply union_subseteq_r.
Qed.

Lemma submit_grows call st :
  processed_results st ⊆ processed_results (fst (submit call st)).
Proof. rewrite submit_eq. cbn. apply (process_result_grows _ (fst (arrive _ st))). Qed.

Lemma for_each_submit_grows calls st :
  processed_results st ⊆ processed_results (fst (for_each submit calls st)).
Proof.
  revert st. induction calls as [|call rest IH]; intros st; [done|].
  rewrite for_each_submit_cons. etrans; [apply submit_grows | apply IH].
Qed.

(** An event whose key is recorded is refused, and nothing changes. *)
Lemma recorded_event_refused data ev st :
  event_of data = Some ev →
  ResultKey ev ∈ processed_results st →
  process_result data st = (st, Return false).
Proof.
  intros Hev Hin. rewrite process_result_eq, Hev. by destruct (decide _).
Qed.

(** A call that hands something to the queue writer records its key. *)
Lemma emitting_call_records data st :
  emits (trace (fst (process_result data st))) ≠ emits (trace st) →
  ∃ ev, event_of data = Some ev ∧
        ResultKey ev ∈ processed_results (fst (process_result data st)).
Proof.
  intros Hemit.
  destruct (process_result_cases data st)
    as [[_ Heq] | [(ev & _ & _ & Heq) | (ev & act & Hev & Hnew & Hres & Hact & _)]];
    try (by rewrite Heq in Hemit).
  destruct (dispatch_eq data st ev act Hev Hnew Hres Hact)
    as (st' & ? & ? & Heq & Hp & _). exists ev. split; [done|].
  rewrite Heq. cbn. rewrite Hp. apply elem_of_union_l. by apply elem_of_singleton.
Qed.

(** *** The ledger of a lifetime *)

Lemma dispatch_ledger data st ev act :
  event_of data = Some ev →
  ResultKey ev ∉ processed_results st →
  result ev ≠ EmptyString →
  ACTION_MAPPINGS st !! KStr (result ev) = Some act →
  let st' := fst (process_result data st) in
  emits (trace st') = emits (trace st) ++ [[command act]] ∧
  marks (trace st') = marks (trace st) ++ [ResultKey ev] ∧
  processed_results st' = {[ ResultKey ev ]} ∪ processed_results st.
Proof.
  intros Hev Hnew Hres Hact.
  destruct (dispatch_eq data st ev act Hev Hnew Hres Hact)
    as (st' & text & errs & Heq & Hp & _ & _ & _ & Htrace & Hw).
  rewrite Heq. cbn [fst]. rewrite Htrace. unfold emits, marks.
  rewrite !omap_app.
  assert (Herrs : errs = [] ∨
            ∃ e, errs = [Print ("Error writing command queue: " +:+ exn_str e)]).
  { destruct (write_succeeds _ _); [left; apply Hw | right; apply Hw]. }
  split; [|split; [|exact Hp]].
  - destruct Herrs as [-> | (e & ->)]; reflexivity.
  - destruct Herrs as [-> | (e & ->)]; reflexivity.
Qed.

Lemma ledger_same st st' :
  emits (trace st') = emits (trace st) →
  marks (trace st') = marks (trace st) →
  processed_results st' = processed_results st →
  ledger_ok st → ledger_ok st'.
Proof.
  intros He Hm Hp (Hnd & Hin & Hlen). unfold ledger_ok.
  by rewrite He, Hm, Hp.
Qed.

Lemma ledger_quiet st st' : quiet_step st st' → ledger_ok st → ledger_ok st'.
Proof. intros (_ & He & Hm & Hp & _). by apply ledger_same. Qed.

Lemma ledger_print line st : ledger_ok st → ledger_ok (record (Print line) st).
Proof. by apply ledger_quiet, quiet_step_record. Qed.

Lemma ledger_process_result data st :
  ledger_ok st → ledger_ok (fst (process_result data st)).
Proof.
  intros Hok.
  destruct (process_result_cases data st)
    as [[_ Heq] | [(ev & _ & _ & Heq) | (ev & act & Hev & Hnew & Hres & Hact & _)]];
    try by rewrite Heq.
  destruct (dispatch_ledger data st ev act Hev Hnew Hres Hact) as (He & Hm & Hp).
  destruct Hok as (Hnd & Hin & Hlen). unfold ledger_ok.
  rewrite He, Hm, Hp. split; [|split].
  - apply NoDup_app. split; [exact Hnd|]. split; [|apply NoDup_singleton].
    intros key Hkey ->%list_elem_of_singleton. apply Hnew. by apply Hin.
  - intros key [Hkey | ->%list_elem_of_singleton]%elem_of_app.
    + apply elem_of_union_r. by apply Hin.
    + apply elem_of_union_l. by apply elem_of_singleton.
  - rewrite !length_app. cbn. by rewrite Hlen.
Qed.

Lemma ledger_iteration st : ledger_ok st → ledger_ok (fst (iteration st)).
Proof.
  intros Hok.
  destruct (iteration_shape st) as (st1 & st2 & st3 & o & -> & Hq1 & _ & Hmid & Hq3 & _).
  cbn. apply (ledger_quiet st2 st3 Hq3).
  pose proof (ledger_quiet st st1 Hq1 Hok) as Hok1.
  destruct Hmid as [-> | (d & _ & _ & ->)]; [exact Hok1|].
  by apply ledger_process_result.
Qed.

Lemma ledger_poll_loop ticks st :
  ledger_ok st → ledger_ok (fst (poll_loop ticks st)).
Proof.
  revert st. induction ticks as [|t rest IH]; intros st Hok; [exact Hok|].
  rewrite poll_loop_eq.
  pose proof (ledger_iteration (fst (arrive t st))
                (ledger_quiet _ _ (quiet_step_arrive t st) Hok)) as Hok3.
  destruct (iteration _) as [st3 [[]|e]]; cbn in *; try exact Hok3.
  by apply IH.
Qed.

Lemma ledger_run ticks st : ledger_ok st → ledger_ok (fst (run ticks st)).
Proof.
  intros Hok. rewrite run_eq.
  set (st0 := record _ (record _ st)).
  assert (Hok0 : ledger_ok st0)
    by (apply (ledger_quiet st); [subst st0; quiet | exact Hok]).
  destruct (load_action_mappings_eq (OPTIONS_FILE st0)) as (r & Hload).
  destruct (Hload st0 eq_refl) as (table & ->).
  assert (Hok1 : ledger_ok (set_mappings table st0))
    by (by apply (ledger_same st0)).
  destruct r as [e|]; cbn [fst].
  - by do 2 apply ledger_print.
  - apply ledger_poll_loop. by do 2 apply ledger_print.
Qed.

(** C1. Of two [process_result] calls of one lifetime on events with the
    same trimmed result and the same timestamp, at most one hands a command
    to the queue writer: once a call has done so, a later call on such an
    event, whatever was submitted in between and whatever the surroundings,
    is quiet; polling the dispatched snapshot again any number of times
    appends nothing to the queue file; over a whole run, whatever the polls
    bring, every command handed to the queue writer goes with the recording
    of one ResultKey and no ResultKey is recorded twice; and three polls of
    the "Fire Rune" snapshot leave exactly one line in the queue file. *)
Theorem at_most_once_dispatch (st : state) (first later : tick * json)
    (between : list (tick * json)) (ticks : list tick) :
  identity_of (snd first) = identity_of (snd later) →
  Forall (λ t, data_now t = Holds (snd first)) ticks →
  let s1 := fst (submit first st) in
  let s2 := fst (for_each submit between s1) in
  emits (trace s1) ≠ emits (trace st) →
  quiet_step s2 (fst (submit later s2)) ∧
  quiet_step s1 (fst (poll_loop ticks s1)) ∧
  (∀ options queue polls, ledger_ok (fst (run polls (initial options queue)))) ∧
  COMMAND_QUEUE_FILE
    (fst (run [quiet (Holds fire_snapshot); quiet (Holds fire_snapshot);
               quiet (Holds fire_snapshot)]
            (initial (Holds fire_options) EmptyString)))
    = "CAST_FIRE" +:+ newline.
Proof.
  intros Hsame Hticks s1 s2 Hemit. subst s1 s2.
  rewrite (submit_eq first st) in *. cbn [fst] in *.
  set (s0 := fst (arrive (fst first) st)) in *.
  assert (Hemit0 : emits (trace (fst (process_result (snd first) s0)))
                   ≠ emits (trace s0)) by exact Hemit.
  destruct (emitting_call_records _ _ Hemit0) as (ev & Hev & Hin).
  set (s1 := fst (process_result (snd first) s0)) in *.
  split; [|split; [|split]].
  - rewrite submit_eq. cbn [fst].
    unfold identity_of in Hsame. rewrite Hev in Hsame.
    destruct (event_of (snd later)) as [ev'|] eqn:Hev'; [|discriminate].
    injection Hsame as Hr Ht.
    rewrite (recorded_event_refused (snd later) ev'); [apply quiet_step_arrive|done|].
    apply (for_each_submit_grows between s1).
    unfold ResultKey in *. by rewrite <- Hr, <- Ht.
  - apply poll_loop_idle. intros t d s Ht Hd Hp _.
    rewrite Forall_forall in Hticks. specialize (Hticks t Ht).
    assert (d = snd first) as -> by congruence.
    rewrite (recorded_event_refused (snd first) ev); [done|done|].
    by rewrite Hp.
  - intros options queue polls. apply ledger_run.
    split; [apply NoDup_nil_2|]. split; [|reflexivity].
    intros key Hkey. by apply elem_of_nil in Hkey.
  - vm_compute. reflexivity.
Qed.

Lemma at_most_once_dispatch_witness :
  let first := (quiet Missing, fire_snapshot) in
  let later :=
    ({| data_now := Missing; fault_now := OpenFails; clock_now := "12:00:05";
        interrupt_now := false |},
     JObj [("timestamp", JStr "T1"); ("result", JStr " Fire Rune ")]) in
  let between := [(quiet Missing, JObj [("result", JStr "Ice Rune")])] in
  let ticks := [quiet (Holds fire_snapshot); quiet (Holds fire_snapshot)] in
  let s1 := fst (submit first fire_loaded) in
  let s2 := fst (for_each submit between s1) in
  identity_of (snd first) = identity_of (snd later) ∧
  Forall (λ t, data_now t = Holds (snd first)) ticks ∧
  emits (trace s1) ≠ emits (trace fire_loaded) ∧
  quiet_step s2 (fst (submit later s2)) ∧
  quiet_step s1 (fst (poll_loop ticks s1)).
Proof.
  intros first later between ticks s1 s2.
  assert (Hsame : identity_of (snd first) = identity_of (snd later)).
  { vm_compute. reflexivity. }
  assert (Hticks : Forall (λ t, data_now t = Holds (snd first)) ticks).
  { repeat constructor. }
  assert (Hemit : emits (trace s1) ≠ emits (trace fire_loaded)).
  { vm_compute. discriminate. }
  split; [exact Hsame|]. split; [exact Hticks|]. split; [exact Hemit|].
  destruct (at_most_once_dispatch fire_loaded first later between ticks
              Hsame Hticks Hemit) as (H1 & H2 & _).
  split; [exact H1 | exact H2].
Defined.

(** ** A failed write *)

Lemma actionable_is_truthy data ev :
  event_of data = Some ev → result ev ≠ EmptyString → truthy data = true.
Proof.
  destruct data as [| | | | | |fields]; try discriminate.
  destruct fields as [|field rest]; [|done].
  cbn. by intros [= <-].
Qed.

(** A pass of the loop over a fresh, mapped event, without Ctrl-C. *)
Lemma dispatching_pass s0 data ev act :
  DATA_FILE s0 = Holds data →
  interrupt s0 = false →
  event_of data = Some ev →
  result ev ≠ EmptyString →
  ResultKey ev ∉ processed_results s0 →
  ACTION_MAPPINGS s0 !! KStr (result ev) = Some act →
  ∃ st' errs,
    process_result data (record ReadData s0) = (st', Return true) ∧
    iteration s0 = (record Sleep st', Return false) ∧
    processed_results st' = {[ ResultKey ev ]} ∪ processed_results s0 ∧
    trace st' = trace s0 ++ [ReadData] ++ announcement (clock s0) ev act
                  ++ [Emit [command act]] ++ errs ++ [Mark (ResultKey ev)] ∧
    (write_succeeds (queue_fault s0) [command act] = false →
     ∃ e, errs = [Print ("Error writing command queue: " +:+ exn_str e)]).
Proof.
  intros Hdata Hint Hev Hres Hnew Hact.
  destruct (dispatch_eq data (record ReadData s0) ev act Hev Hnew Hres Hact) as
    (st' & text & errs & Hrun & Hp & _ & Hflag & _ & Htrace & Hw).
  exists st', errs. split; [exact Hrun|].
  split; [|split; [exact Hp|split]].
  2:{ rewrite Htrace. cbn. by rewrite <- !app_assoc. }
  2:{ intros Hfail. cbn in Hw. by rewrite Hfail in Hw. }
  unfold iteration, sleep. step. rewrite read_data_file_eq, Hdata.
  rewrite (actionable_is_truthy data ev Hev Hres).
  unfold mbind, M_bind. rewrite Hrun. cbn.
  cbn in Hflag. by rewrite Hflag, Hint.
Qed.

(** C5. When the queue-file write fails during a dispatch, [process_result]
    still returns [True] without raising, the event's ResultKey is in the
    processed set afterwards, so that every later submission of the event
    is refused, and the pass of the loop ends without [break] and without
    an exception: the loop goes on with the next poll. *)
Theorem write_failure_drops_event (st : state) (t : tick) (data : json)
    (ev : ResultEvent) (act : action) (rest : list tick) :
  data_now t = Holds data →
  interrupt_now t = false →
  event_of data = Some ev →
  result ev ≠ EmptyString →
  ResultKey ev ∉ processed_results st →
  ACTION_MAPPINGS st !! KStr (result ev) = Some act →
  write_succeeds (fault_now t) [command act] = false →
  let polled := fst ((arrive t ;; read_data_file) st) in
  ∃ st' st'' e,
    process_result data polled = (st', Return true) ∧
    trace st' = trace polled ++ announcement (clock polled) ev act
                  ++ [ Emit [command act];
                       Print ("Error writing command queue: " +:+ exn_str e);
                       Mark (ResultKey ev) ] ∧
    (ResultKey ev ∈ processed_results st') ∧
    (∀ s, processed_results st' ⊆ processed_results s →
          process_result data s = (s, Return false)) ∧
    iteration (fst (arrive t st)) = (st'', Return false) ∧
    poll_loop (t :: rest) st = poll_loop rest st'' ∧
    processed_results st'' = processed_results st'.
Proof.
  intros Hdata Hint Hev Hres Hnew Hact Hfail polled.
  assert (Hpolled : polled = record ReadData (fst (arrive t st))).
  { subst polled. unfold mbind, M_bind. cbn.
    rewrite read_data_file_eq. cbn. by rewrite Hdata. }
  destruct (dispatching_pass (fst (arrive t st)) data ev act)
    as (st' & errs & Hrun & Hpass & Hp & Htrace & Hw); try done.
  destruct (Hw Hfail) as (e & ->).
  assert (Hin : ResultKey ev ∈ processed_results st').
  { rewrite Hp. apply elem_of_union_l. by apply elem_of_singleton. }
  exists st', (record Sleep st'), e. rewrite Hpolled.
  split; [exact Hrun|].
  split; [rewrite Htrace; cbn; by rewrite <- !app_assoc|].
  split; [exact Hin|].
  split; [|split; [exact Hpass|split; [|reflexivity]]].
  - intros s Hsub. apply (recorded_event_refused data ev); [exact Hev|].
    by apply Hsub.
  - by rewrite poll_loop_eq, Hpass.
Qed.

Lemma write_failure_drops_event_witness :
  let t := {| data_now := Holds fire_snapshot; fault_now := OpenFails;
              clock_now := "12:00:00"; interrupt_now := false |} in
  let ev := {| result := "Fire Rune"; timestamp := JStr "T1";
               mods := JArr [JStr "modA"] |} in
  let act := {| command := JStr "CAST_FIRE";
                description := JStr "Casts fire rune" |} in
  let rest := [quiet (Holds fire_snapshot)] in
  let polled := fst ((arrive t ;; read_data_file) fire_loaded) in
  data_now t = Holds fire_snapshot ∧
  interrupt_now t = false ∧
  event_of fire_snapshot = Some ev ∧
  result ev ≠ EmptyString ∧
  (ResultKey ev ∉ processed_results fire_loaded) ∧
  ACTION_MAPPINGS fire_loaded !! KStr (result ev) = Some act ∧
  write_succeeds (fault_now t) [command act] = false ∧
  ∃ st' st'' e,
    process_result fire_snapshot polled = (st', Return true) ∧
    trace st' = trace polled ++ announcement (clock polled) ev act
                  ++ [ Emit [command act];
                       Print ("Error writing command queue: " +:+ exn_str e);
                       Mark (ResultKey ev) ] ∧
    (ResultKey ev ∈ processed_results st') ∧
    (∀ s, processed_results st' ⊆ processed_results s →
          process_result fire_snapshot s = (s, Return false)) ∧
    iteration (fst (arrive t fire_loaded)) = (st'', Return false) ∧
    poll_loop (t :: rest) fire_loaded = poll_loop rest st'' ∧
    processed_results st'' = processed_results st'.
Proof.
  intros t ev act rest polled.
  assert (Hdata : data_now t = Holds fire_snapshot) by reflexivity.
  assert (Hint : interrupt_now t = false) by reflexivity.
  assert (Hev : event_of fire_snapshot = Some ev) by reflexivity.
  assert (Hres : result ev ≠ EmptyString) by discriminate.
  assert (Hnew : ResultKey ev ∉ processed_results fire_loaded).
  { assert (processed_results fire_loaded = ∅) as -> by reflexivity.
    apply not_elem_of_empty. }
  assert (Hact : ACTION_MAPPINGS fire_loaded !! KStr (result ev) = Some act).
  { vm_compute. reflexivity. }
  assert (Hfail : write_succeeds (fault_now t) [command act] = false)
    by reflexivity.
  repeat (split; [assumption|]).
  exact (write_failure_drops_event fire_loaded t fire_snapshot ev act rest
           Hdata Hint Hev Hres Hnew Hact Hfail).
Defined.

(** * Further properties *)

(** ** The loader, entry by entry *)

Lemma store_option_eq option st :
  store_option option st =
  match parse_option option with
  | inr (k, a) => (set_mappings (<[k := a]> (ACTION_MAPPINGS st)) st, Return tt)
  | inl e => (st, Raise e)
  end.
Proof.
  unfold store_option, parse_option. destruct option; try reflexivity.
  step.
  destruct (dict_lookup "command" fields); [|reflexivity]. step.
  destruct (dict_lookup "description" fields); [|reflexivity]. step.
  destruct (dict_lookup "name" fields) as [name|]; [|reflexivity]. step.
  by destruct (to_key name).
Qed.

Lemma for_each_store_eq items st :
  for_each store_option items st =
  match store_all items (ACTION_MAPPINGS st) with
  | (table, None) => (set_mappings table st, Return tt)
  | (table, Some e) => (set_mappings table st, Raise e)
  end.
Proof.
  revert st. induction items as [|option rest IH]; intros st.
  { cbn. by rewrite set_mappings_same. }
  cbn [for_each store_all]. unfold mbind, M_bind. rewrite store_option_eq.
  destruct (parse_option option) as [e|[k a]].
  - by rewrite set_mappings_same.
  - rewrite IH. cbn. by destruct (store_all rest _) as [table [e|]].
Qed.

Lemma parse_option_is_Exception option e :
  parse_option option = inl e → is_Exception e = true.
Proof.
  unfold parse_option. destruct option; try by intros [= <-].
  destruct (dict_lookup "command" fields); [|by intros [= <-]].
  destruct (dict_lookup "description" fields); [|by intros [= <-]].
  destruct (dict_lookup "name" fields) as [name|]; [|by intros [= <-]].
  destruct (to_key name); [discriminate | by intros [= <-]].
Qed.

Lemma store_all_is_Exception items table table' e :
  store_all items table = (table', Some e) → is_Exception e = true.
Proof.
  revert table. induction items as [|option rest IH]; intros table; [discriminate|].
  cbn. destruct (parse_option option) as [e'|[k a]] eqn:Hp.
  - intros [= _ <-]. by apply (parse_option_is_Exception option).
  - apply IH.
Qed.

Lemma options_of_is_Exception file e :
  options_of file = inl e → is_Exception e = true.
Proof.
  destruct file as [| | |data]; try by intros [= <-].
  cbn. destruct data; try (by intros [= <-]); try discriminate.
  destruct (from_option id (JArr []) (dict_lookup "options" fields));
    try (by intros [= <-]); discriminate.
Qed.

(** [load_action_mappings], statement by statement. *)
Lemma load_action_mappings_run st :
  load_action_mappings st =
  match options_of (OPTIONS_FILE st) with
  | inl e =>
      (record (Print ("Error loading options file: " +:+ exn_str e)) st,
       Return false)
  | inr items =>
      match store_all items (ACTION_MAPPINGS st) with
      | (table, None) => (set_mappings table st, Return true)
      | (table, Some e) =>
          (record (Print ("Error loading options file: " +:+ exn_str e))
             (set_mappings table st), Return false)
      end
  end.
Proof.
  assert (Hloop : ∀ items,
    (let (st', o) :=
       let (st', o) := for_each store_option items st in
       match o with
       | Return _ => (st', Return true)
       | Raise e => (st', Raise e)
       end in
     match o with
     | Return a => (st', Return a)
     | Raise e =>
         match
           (if is_Exception e
            then Some (λ st0 : state,
                   (record (Print ("Error loading options file: " +:+ exn_str e)) st0,
                    Return false))
            else None)
         with
         | Some handler => handler st'
         | None => (st', Raise e)
         end
     end) =
    match store_all items (ACTION_MAPPINGS st) with
    | (table, None) => (set_mappings table st, Return true)
    | (table, Some e) =>
        (record (Print ("Error loading options file: " +:+ exn_str e))
           (set_mappings table st), Return false)
    end).
  { intros items. rewrite for_each_store_eq.
    destruct (store_all items (ACTION_MAPPINGS st)) as [table [e|]] eqn:Hs;
      [|reflexivity].
    by rewrite (store_all_is_Exception _ _ _ _ Hs). }
  unfold load_action_mappings. step.
  destruct (OPTIONS_FILE st) as [| | |data]; try reflexivity.
  cbn. destruct data; try reflexivity.
  - cbn. apply Hloop.
  - unfold py_get, mret, M_ret.
    destruct (from_option id (JArr []) (dict_lookup "options" fields));
      cbn; first [reflexivity | apply Hloop].
Qed.

Lemma entry_of_parse item name a :
  entry_of item = Some (name, a) → parse_option item = inr (KStr name, a).
Proof.
  unfold entry_of. destruct (parse_option item) as [e|[[] a']]; try discriminate.
  by intros [= -> ->].
Qed.

Lemma store_all_entries opts entries table :
  Forall2 (λ item e, entry_of item = Some e) opts entries →
  ∃ table',
    store_all opts table = (table', None) ∧
    (∀ name, table' !! KStr name =
             match dict_lookup name entries with
             | Some a => Some a
             | None => table !! KStr name
             end) ∧
    (∀ k, (∀ name, k ≠ KStr name) → table' !! k = table !! k).
Proof.
  intros Hall. revert table.
  induction Hall as [|item [n a] opts entries Hitem _ IH]; intros table.
  { exists table. by repeat split. }
  destruct (IH (<[KStr n := a]> table)) as (table' & Hrun & Hstr & Hother).
  exists table'. cbn [store_all]. rewrite (entry_of_parse item n a Hitem).
  split; [exact Hrun|]. split.
  - intros name. rewrite Hstr. cbn [dict_lookup].
    destruct (dict_lookup name entries); [reflexivity|].
    destruct (String.eqb_spec name n) as [->|Hne].
    + by rewrite lookup_insert_eq.
    + rewrite lookup_insert_ne; [reflexivity | congruence].
  - intros k Hk. rewrite (Hother k Hk). apply lookup_insert_ne.
    intros <-. by apply (Hk n).
Qed.

(** X1. An options file in either accepted shape, a bare list or an
    object whose [options] member is the list, whose entries all have
    [command], [description] and a [str] as [name], loads with [True]:
    afterwards each name maps to the command and description of the last
    entry that carries it, and everything else in the table, and outside
    it, is as before. *)
Theorem load_stores_entries (st : state) (data : json) (opts : list json)
    (entries : list (string * action)) :
  OPTIONS_FILE st = Holds data →
  data = JArr opts ∨
    (∃ fields, data = JObj fields ∧ dict_lookup "options" fields = Some (JArr opts)) →
  Forall2 (λ item e, entry_of item = Some e) opts entries →
  ∃ table,
    load_action_mappings st = (set_mappings table st, Return true) ∧
    (∀ name, table !! KStr name =
             match dict_lookup name entries with
             | Some a => Some a
             | None => ACTION_MAPPINGS st !! KStr name
             end) ∧
    (∀ k, (∀ name, k ≠ KStr name) → table !! k = ACTION_MAPPINGS st !! k).
Proof.
  intros Hfile Hshape Hall.
  destruct (store_all_entries opts entries (ACTION_MAPPINGS st) Hall)
    as (table & Hrun & Hstr & Hother).
  exists table. split; [|by split].
  rewrite load_action_mappings_run, Hfile.
  assert (options_of (Holds data) = inr opts) as ->.
  { destruct Hshape as [-> | (fields & -> & Hopt)]; [reflexivity|].
    cbn. by rewrite Hopt. }
  by rewrite Hrun.
Qed.

Lemma load_stores_entries_witness :
  let st := initial (Holds (JObj [("options", rune_options)])) EmptyString in
  let opts :=
    [JObj [("name", JStr "Fire_Rune"); ("command", JStr "CAST_FIRE");
           ("description", JStr "Casts fire rune")];
     JObj [("name", JStr "Fire"); ("command", JStr "IGNITE");
           ("description", JStr "Lights a fire")]] in
  let entries :=
    [("Fire_Rune", {| command := JStr "CAST_FIRE";
                      description := JStr "Casts fire rune" |});
     ("Fire", {| command := JStr "IGNITE"; description := JStr "Lights a fire" |})] in
  OPTIONS_FILE st = Holds (JObj [("options", rune_options)]) ∧
  Forall2 (λ item e, entry_of item = Some e) opts entries ∧
  ∃ table,
    load_action_mappings st = (set_mappings table st, Return true) ∧
    (∀ name, table !! KStr name =
             match dict_lookup name entries with
             | Some a => Some a
             | None => ACTION_MAPPINGS st !! KStr name
             end) ∧
    (∀ k, (∀ name, k ≠ KStr name) → table !! k = ACTION_MAPPINGS st !! k).
Proof.
  intros st opts entries.
  assert (Hfile : OPTIONS_FILE st = Holds (JObj [("options", rune_options)]))
    by reflexivity.
  assert (Hall : Forall2 (λ item e, entry_of item = Some e) opts entries)
    by (repeat constructor).
  split; [exact Hfile|]. split; [exact Hall|].
  apply (load_stores_entries st _ opts entries Hfile); [|exact Hall].
  right. exists [("options", rune_options)]. split; reflexivity.
Defined.

(** X2. When the options file is missing, cannot be opened, does not
    parse, or parses to a value that is neither a list nor an object,
    [load_action_mappings] returns [False] without raising: it prints one
    line and leaves the table and everything else untouched. *)
Theorem load_rejects_file (st : state) :
  match OPTIONS_FILE st with
  | Holds (JArr _) | Holds (JObj _) => False
  | _ => True
  end →
  ∃ e, is_Exception e = true ∧
    load_action_mappings st =
      (record (Print ("Error loading options file: " +:+ exn_str e)) st,
       Return false).
Proof.
  intros Hfile. rewrite load_action_mappings_run.
  destruct (OPTIONS_FILE st) as [| | |[]]; try done;
    first [ by exists FileNotFoundError | by exists PermissionError
          | by exists JSONDecodeError | by exists AttributeError ].
Qed.

Lemma load_rejects_file_witness :
  let st := set_mappings (ACTION_MAPPINGS fire_loaded)
              (initial (Holds (JStr "options")) EmptyString) in
  match OPTIONS_FILE st with
  | Holds (JArr _) | Holds (JObj _) => False
  | _ => True
  end ∧
  ∃ e, is_Exception e = true ∧
    load_action_mappings st =
      (record (Print ("Error loading options file: " +:+ exn_str e)) st,
       Return false).
Proof. intros st. split; [exact I|]. exact (load_rejects_file st I). Defined.

(** X3. Loading is not all-or-nothing.  When, after some well-formed
    entries, an entry is not an object, lacks [command], [description] or
    [name], or has a list or an object as its name,
    [load_action_mappings] returns [False] and prints the error,
    yet the entries before it are in the table, as after a successful load
    of them; the entries after it are never looked at. *)
Theorem load_keeps_entries_before_failure (st : state) (good rest : list json)
    (bad : json) (entries : list (string * action)) (e : exn) :
  OPTIONS_FILE st = Holds (JArr (good ++ bad :: rest)) →
  Forall2 (λ item e, entry_of item = Some e) good entries →
  parse_option bad = inl e →
  ∃ table,
    load_action_mappings st =
      (record (Print ("Error loading options file: " +:+ exn_str e))
         (set_mappings table st), Return false) ∧
    (∀ name, table !! KStr name =
             match dict_lookup name entries with
             | Some a => Some a
             | None => ACTION_MAPPINGS st !! KStr name
             end).
Proof.
  intros Hfile Hall Hbad.
  assert (Hrun : ∀ table, ∃ table',
            store_all (good ++ bad :: rest) table = (table', Some e) ∧
            ∀ name, table' !! KStr name =
                    match dict_lookup name entries with
                    | Some a => Some a
                    | None => table !! KStr name
                    end).
  { clear Hfile. induction Hall as [|item [n a] good entries Hitem _ IH];
      intros table.
    - exists table. cbn. by rewrite Hbad.
    - destruct (IH (<[KStr n := a]> table)) as (table' & Hrun & Hstr).
      exists table'. cbn [app store_all]. rewrite (entry_of_parse item n a Hitem).
      split; [exact Hrun|]. intros name. rewrite Hstr. cbn [dict_lookup].
      destruct (dict_lookup name entries); [reflexivity|].
      destruct (String.eqb_spec name n) as [->|Hne].
      + by rewrite lookup_insert_eq.
      + rewrite lookup_insert_ne; [reflexivity | congruence]. }
  destruct (Hrun (ACTION_MAPPINGS st)) as (table & Hstore & Hstr).
  exists table. split; [|exact Hstr].
  rewrite load_action_mappings_run, Hfile. cbn [options_of]. by rewrite Hstore.
Qed.

Lemma load_keeps_entries_before_failure_witness :
  let good := [JObj [("name", JStr "Fire Rune"); ("command", JStr "CAST_FIRE");
                     ("description", JStr "Casts fire rune")]] in
  let bad := JObj [("name", JStr "Ice Rune"); ("description", JStr "no command")] in
  let rest := [JObj [("name", JStr "Air Rune"); ("command", JStr "CAST_AIR");
                     ("description", JStr "never reached")]] in
  let entries := [("Fire Rune", {| command := JStr "CAST_FIRE";
                                   description := JStr "Casts fire rune" |})] in
  let st := initial (Holds (JArr (good ++ bad :: rest))) EmptyString in
  OPTIONS_FILE st = Holds (JArr (good ++ bad :: rest)) ∧
  Forall2 (λ item e, entry_of item = Some e) good entries ∧
  parse_option bad = inl (KeyError "command") ∧
  ∃ table,
    load_action_mappings st =
      (record (Print ("Error loading options file: " +:+ exn_str (KeyError "command")))
         (set_mappings table st), Return false) ∧
    (∀ name, table !! KStr name =
             match dict_lookup name entries with
             | Some a => Some a
             | None => ACTION_MAPPINGS st !! KStr name
             end).
Proof.
  intros good bad rest entries st.
  assert (Hfile : OPTIONS_FILE st = Holds (JArr (good ++ bad :: rest)))
    by reflexivity.
  assert (Hall : Forall2 (λ item e, entry_of item = Some e) good entries)
    by (repeat constructor).
  assert (Hbad : parse_option bad = inl (KeyError "command")) by reflexivity.
  split; [exact Hfile|]. split; [exact Hall|]. split; [exact Hbad|].
  exact (load_keeps_entries_before_failure st good rest bad entries _
           Hfile Hall Hbad).
Defined.

(** ** Dispatching *)





Lemma lstrip_head s :
  lstrip s = EmptyString ∨ ∃ c t, lstrip s = String c t ∧ is_space c = false.
Proof.
  induction s as [|c s IH]; [by left|]. cbn.
  destruct (is_space c) eqn:Hc; [exact IH|]. right. by exists c, s.
Qed.

Lemma rstrip_idem s : rstrip (rstrip s) = rstrip s.
Proof.
  induction s as [|c s IH]; [reflexivity|]. cbn.
  destruct (rstrip s) as [|c' kept] eqn:Hs.
  - destruct (is_space c) eqn:Hc; [reflexivity|]. cbn. by rewrite Hc.
  - cbn [rstrip]. cbn [rstrip] in IH. by rewrite IH.
Qed.

Lemma strip_idem s : strip (strip s) = strip s.
Proof.
  unfold strip.
  assert (Hl : lstrip (rstrip (lstrip s)) = rstrip (lstrip s)).
  { destruct (lstrip_head s) as [-> | (c & t & -> & Hc)]; [reflexivity|].
    cbn [rstrip]. destruct (rstrip t); rewrite ?Hc; cbn; by rewrite Hc. }
  by rewrite Hl, rstrip_idem.
Qed.

(** X6. A dispatch always goes through a table entry whose name is a
    non-empty [str] without leading or trailing whitespace: the result is
    trimmed before the lookup, the names are stored as given.  An entry
    stored under a name with such whitespace, under the empty name or under
    a name that is not a [str] is never the one dispatched. *)
Theorem dispatch_goes_by_trimmed_name (data : json) (st st' : state) :
  process_result data st = (st', Return true) →
  ∃ ev act,
    event_of data = Some ev ∧
    ACTION_MAPPINGS st !! KStr (result ev) = Some act ∧
    emits (trace st') = emits (trace st) ++ [[command act]] ∧
    result ev ≠ EmptyString ∧
    strip (result ev) = result ev.
Proof.
  intros Hrun.
  destruct (dispatched_inv data st st' Hrun) as (ev & act & Hev & Hnew & Hres & Hact).
  exists ev, act. split; [exact Hev|]. split; [exact Hact|].
  split; [|split; [exact Hres|]].
  - destruct (dispatch_ledger data st ev act Hev Hnew Hres Hact) as (He & _).
    by rewrite Hrun in He.
  - destruct data as [| | | | | |fields]; try discriminate. cbn in Hev.
    destruct (from_option id (JStr "") (dict_lookup "result" fields));
      try discriminate.
    injection Hev as <-. apply strip_idem.
Qed.

Lemma dispatch_goes_by_trimmed_name_witness :
  let data := JObj [("result", JStr "  Fire Rune "); ("timestamp", JInt 3)] in
  let st' := fst (process_result data fire_loaded) in
  process_result data fire_loaded = (st', Return true) ∧
  ∃ ev act,
    event_of data = Some ev ∧
    ACTION_MAPPINGS fire_loaded !! KStr (result ev) = Some act ∧
    emits (trace st') = emits (trace fire_loaded) ++ [[command act]] ∧
    result ev ≠ EmptyString ∧
    strip (result ev) = result ev.
Proof.
  intros data st'.
  assert (Hrun : process_result data fire_loaded = (st', Return true))
    by (vm_compute; reflexivity).
  split; [exact Hrun|].
  exact (dispatch_goes_by_trimmed_name data fire_loaded st' Hrun).
Defined.

Lemma write_nonstring_command cmd st :
  (∀ c, cmd ≠ JStr c) →
  ∃ e,
    write_command_queue [cmd] st =
      (record (Print ("Error writing command queue: " +:+ exn_str e))
         (record (Emit [cmd]) st), Return false).
Proof.
  intros Hcmd. unfold write_command_queue. step.
  destruct (queue_fault st).
  - exists TypeError. destruct cmd; try reflexivity. by destruct (Hcmd s).
  - by exists PermissionError.
  - exists TypeError. destruct cmd; try reflexivity. by destruct (Hcmd s).
Qed.

(** X7. An entry whose command is not a [str] can never be queued, yet it
    uses its events up: the dispatch prints the write error, leaves the
    queue file as it was, records the event's ResultKey and returns
    [True]. *)
Theorem nonstring_command_consumes_event (data : json) (st : state)
    (ev : ResultEvent) (act : action) :
  event_of data = Some ev →
  result ev ≠ EmptyString →
  ResultKey ev ∉ processed_results st →
  ACTION_MAPPINGS st !! KStr (result ev) = Some act →
  (∀ c, command act ≠ JStr c) →
  ∃ st' e,
    process_result data st = (st', Return true) ∧
    COMMAND_QUEUE_FILE st' = COMMAND_QUEUE_FILE st ∧
    processed_results st' = {[ ResultKey ev ]} ∪ processed_results st ∧
    trace st' = trace st ++ announcement (clock st) ev act
                  ++ [ Emit [command act];
                       Print ("Error writing command queue: " +:+ exn_str e);
                       Mark (ResultKey ev) ].
Proof.
  intros Hev Hres Hnew Hact Hcmd.
  rewrite process_result_eq, Hev.
  destruct (decide _) as [|_]; [done|].
  apply String.eqb_neq in Hres. rewrite Hres, Hact.
  unfold execute_notepad_command. step.
  set (st4 := record _ (record _ (record _ (record _ st)))).
  destruct (write_nonstring_command (command act) st4 Hcmd) as (e & ->).
  eexists _, e. split; [reflexivity|]. subst st4. cbn.
  repeat split. by rewrite <- !app_assoc.
Qed.

Lemma nonstring_command_consumes_event_witness :
  let options := JArr [JObj [("name", JStr "Fire Rune"); ("command", JInt 7);
                             ("description", JStr "Casts fire rune")]] in
  let st := fst (load_action_mappings (initial (Holds options) EmptyString)) in
  let ev := {| result := "Fire Rune"; timestamp := JStr "T1";
               mods := JArr [JStr "modA"] |} in
  let act := {| command := JInt 7; description := JStr "Casts fire rune" |} in
  event_of fire_snapshot = Some ev ∧
  result ev ≠ EmptyString ∧
  (ResultKey ev ∉ processed_results st) ∧
  ACTION_MAPPINGS st !! KStr (result ev) = Some act ∧
  (∀ c, command act ≠ JStr c) ∧
  ∃ st' e,
    process_result fire_snapshot st = (st', Return true) ∧
    COMMAND_QUEUE_FILE st' = COMMAND_QUEUE_FILE st ∧
    processed_results st' = {[ ResultKey ev ]} ∪ processed_results st ∧
    trace st' = trace st ++ announcement (clock st) ev act
                  ++ [ Emit [command act];
                       Print ("Error writing command queue: " +:+ exn_str e);
                       Mark (ResultKey ev) ].
Proof.
  intros options st ev act.
  assert (Hev : event_of fire_snapshot = Some ev) by reflexivity.
  assert (Hres : result ev ≠ EmptyString) by discriminate.
  assert (Hnew : ResultKey ev ∉ processed_results st).
  { assert (processed_results st = ∅) as -> by reflexivity.
    apply not_elem_of_empty. }
  assert (Hact : ACTION_MAPPINGS st !! KStr (result ev) = Some act)
    by (vm_compute; reflexivity).
  assert (Hcmd : ∀ c, command act ≠ JStr c) by discriminate.
  repeat (split; [assumption|]).
  exact (nonstring_command_consumes_event fire_snapshot st ev act
           Hev Hres Hnew Hact Hcmd).
Defined.

(** ** Passes of the loop *)

Lemma read_data_file_returns st :
  ∃ st1 d, read_data_file st = (st1, Return d) ∧
           quiet_step st st1 ∧ interrupt st1 = interrupt st ∧
           queue_fault st1 = queue_fault st ∧
           (truthy d = true → DATA_FILE st = Holds d ∧ st1 = record ReadData st).
Proof.
  rewrite read_data_file_eq.
  destruct (DATA_FILE st) as [| | |d]; eexists _, _;
    (split; [reflexivity|]); (split; [quiet|]); repeat split; done.
Qed.

(** One pass, given what the read returned. *)
Lemma iteration_run st st1 d :
  read_data_file st = (st1, Return d) →
  iteration st =
  match (if truthy d then process_result d st1 else (st1, Return false)) with
  | (st2, Return _) =>
      if interrupt st2
      then (record (Print (newline +:+ "Shutdown requested")) (record Sleep st2),
            Return true)
      else (record Sleep st2, Return false)
  | (st2, Raise e) =>
      if interrupt st2
      then (record Sleep (record (Print ("Error in main loop: " +:+ exn_str e)) st2),
            Raise KeyboardInterrupt)
      else (record Sleep (record (Print ("Error in main loop: " +:+ exn_str e)) st2),
            Return false)
  end.
Proof.
  intros Hread. unfold iteration, sleep. step. rewrite Hread.
  destruct (truthy d); cbn.
  - pose proof (process_result_no_interrupt d st1) as Hno.
    destruct (process_result d st1) as [st2 [b|e]]; cbn in *.
    + by destruct (interrupt st2).
    + destruct e; try done; by destruct (interrupt st2).
  - by destruct (interrupt st1).
Qed.

(** X8. A snapshot that is truthy but is not an object, or whose [result]
    is not a [str], makes [process_result] raise: the loop prints
    "Error in main loop", sleeps and goes on with the next poll; nothing
    is written, recorded or changed, so the same snapshot is logged again
    at every poll. *)
Theorem bad_snapshot_logged_and_skipped (st : state) (t : tick) (d : json)
    (rest : list tick) :
  data_now t = Holds d →
  truthy d = true →
  event_of d = None →
  interrupt_now t = false →
  poll_loop (t :: rest) st =
  poll_loop rest
    (record Sleep
       (record (Print ("Error in main loop: " +:+ exn_str AttributeError))
          (record ReadData (fst (arrive t st))))).
Proof.
  intros Hdata Htruthy Hev Hint. rewrite poll_loop_eq.
  set (s0 := fst (arrive t st)).
  assert (Hread : read_data_file s0 = (record ReadData s0, Return d)).
  { rewrite read_data_file_eq. subst s0. cbn. by rewrite Hdata. }
  rewrite (iteration_run s0 _ d Hread), Htruthy.
  rewrite process_result_eq, Hev. subst s0. cbn. by rewrite Hint.
Qed.

Lemma bad_snapshot_logged_and_skipped_witness :
  let d := JObj [("result", JInt 12); ("timestamp", JStr "T1")] in
  let t := quiet (Holds d) in
  let rest := [quiet Missing] in
  data_now t = Holds d ∧ truthy d = true ∧ event_of d = None ∧
  interrupt_now t = false ∧
  poll_loop (t :: rest) fire_loaded =
  poll_loop rest
    (record Sleep
       (record (Print ("Error in main loop: " +:+ exn_str AttributeError))
          (record ReadData (fst (arrive t fire_loaded))))).
Proof.
  intros d t rest. repeat (split; [reflexivity|]).
  exact (bad_snapshot_logged_and_skipped fire_loaded t d rest
           eq_refl eq_refl eq_refl eq_refl).
Defined.

(** X9. When the state file is missing, holds text that [json.load]
    rejects with [JSONDecodeError], or holds a falsy value (an empty object
    or list, [0], an empty string, [null], [false]), [process_result] is
    not called: the pass reads, sleeps and prints nothing.  (Any other
    failure of the read is a [Denied] file and does print.) *)
Theorem falsy_snapshot_skipped (st : state) (t : tick) (rest : list tick) :
  match data_now t with
  | Holds d => truthy d = false
  | Denied => False
  | Missing | Garbled => True
  end →
  interrupt_now t = false →
  poll_loop (t :: rest) st =
  poll_loop rest (record Sleep (record ReadData (fst (arrive t st)))).
Proof.
  intros Hdata Hint. rewrite poll_loop_eq.
  set (s0 := fst (arrive t st)).
  assert (Hread : ∃ d, truthy d = false ∧
            read_data_file s0 = (record ReadData s0, Return d)).
  { rewrite read_data_file_eq. subst s0. cbn.
    destruct (data_now t) as [| | |d]; try done;
      [by exists JNull | by exists JNull | by exists d]. }
  destruct Hread as (d & Hfalsy & Hread).
  rewrite (iteration_run s0 _ d Hread), Hfalsy. subst s0. cbn. by rewrite Hint.
Qed.

Lemma falsy_snapshot_skipped_witness :
  let t := quiet (Holds (JObj [])) in
  let rest := [quiet (Holds fire_snapshot)] in
  match data_now t with
  | Holds d => truthy d = false
  | Denied => False
  | Missing | Garbled => True
  end ∧
  interrupt_now t = false ∧
  poll_loop (t :: rest) fire_loaded =
  poll_loop rest (record Sleep (record ReadData (fst (arrive t fire_loaded)))).
Proof.
  intros t rest. repeat (split; [reflexivity|]).
  exact (falsy_snapshot_skipped fire_loaded t rest eq_refl eq_refl).
Defined.



(** X11. Ctrl-C during the sleep that follows a logged error is not
    caught: that sleep stands in the [except Exception] handler, outside
    the [try], so [KeyboardInterrupt] leaves [run] without "Shutdown
    requested" and without an exit status of 0. *)
Theorem ctrl_c_after_error_escapes (st : state) (t : tick) (d : json)
    (rest : list tick) :
  data_now t = Holds d →
  truthy d = true →
  event_of d = None →
  interrupt_now t = true →
  poll_loop (t :: rest) st =
    (record Sleep
       (record (Print ("Error in main loop: " +:+ exn_str AttributeError))
          (record ReadData (fst (arrive t st)))),
     Raise KeyboardInterrupt) ∧
  exit_status (snd (poll_loop (t :: rest) st)) = None.
Proof.
  intros Hdata Htruthy Hev Hint.
  assert (Hrun : poll_loop (t :: rest) st =
    (record Sleep
       (record (Print ("Error in main loop: " +:+ exn_str AttributeError))
          (record ReadData (fst (arrive t st)))),
     Raise KeyboardInterrupt)).
  { rewrite poll_loop_eq. set (s0 := fst (arrive t st)).
    assert (Hread : read_data_file s0 = (record ReadData s0, Return d)).
    { rewrite read_data_file_eq. subst s0. cbn. by rewrite Hdata. }
    rewrite (iteration_run s0 _ d Hread), Htruthy.
    rewrite process_result_eq, Hev. subst s0. cbn. by rewrite Hint. }
  split; [exact Hrun|]. by rewrite Hrun.
Qed.

Lemma ctrl_c_after_error_escapes_witness :
  let d := JArr [JInt 1] in
  let t := {| data_now := Holds d; fault_now := NoFault;
              clock_now := "12:00:00"; interrupt_now := true |} in
  let rest := [quiet Missing] in
  data_now t = Holds d ∧ truthy d = true ∧ event_of d = None ∧
  interrupt_now t = true ∧
  poll_loop (t :: rest) fire_loaded =
    (record Sleep
       (record (Print ("Error in main loop: " +:+ exn_str AttributeError))
          (record ReadData (fst (arrive t fire_loaded)))),
     Raise KeyboardInterrupt) ∧
  exit_status (snd (poll_loop (t :: rest) fire_loaded)) = None.
Proof.
  intros d t rest. do 4 (split; [reflexivity|]).
  exact (ctrl_c_after_error_escapes fire_loaded t d rest
           eq_refl eq_refl eq_refl eq_refl).
Defined.

(** ** What a run keeps *)

Lemma extends_refl st : extends st st.
Proof.
  split; [reflexivity|]. split; [reflexivity|].
  exists EmptyString. by rewrite string_app_nil_r.
Qed.

Lemma extends_trans st1 st2 st3 :
  extends st1 st2 → extends st2 st3 → extends st1 st3.
Proof.
  intros (Hm1 & Hp1 & t1 & Hq1) (Hm2 & Hp2 & t2 & Hq2).
  split; [congruence|]. split; [by etrans|].
  exists (t1 +:+ t2). by rewrite Hq2, Hq1, string_app_assoc.
Qed.

Lemma extends_quiet st st' : quiet_step st st' → extends st st'.
Proof.
  intros (Hq & _ & _ & Hp & Hm). split; [exact Hm|]. split; [by rewrite Hp|].
  exists EmptyString. by rewrite string_app_nil_r.
Qed.

Lemma extends_process_result d st : extends st (fst (process_result d st)).
Proof.
  destruct (process_result_cases d st)
    as [[_ Heq] | [(ev & _ & _ & Heq) | (ev & act & Hev & Hnew & Hres & Hact & _)]];
    try (rewrite Heq; apply extends_refl).
  destruct (dispatch_eq d st ev act Hev Hnew Hres Hact)
    as (st' & text & errs & Heq & Hp & Hm & _ & Hq & _).
  rewrite Heq. split; [exact Hm|]. split; [|by exists text].
  cbn. rewrite Hp. apply union_subseteq_r.
Qed.

Lemma extends_iteration st : extends st (fst (iteration st)).
Proof.
  destruct (iteration_shape st) as (st1 & st2 & st3 & o & -> & Hq1 & _ & Hmid & Hq3 & _).
  cbn. eapply extends_trans; [|apply (extends_quiet _ _ Hq3)].
  eapply extends_trans; [apply (extends_quiet _ _ Hq1)|].
  destruct Hmid as [-> | (d & _ & _ & ->)];
    [apply extends_refl | apply extends_process_result].
Qed.

(** X12. Whatever the polls bring and however the loop ends, it never
    changes the mapping table, never removes a key from the processed set,
    and never touches what the queue file already holds: the file only
    gets longer. *)
Theorem poll_loop_only_extends (ticks : list tick) (st : state) :
  ACTION_MAPPINGS (fst (poll_loop ticks st)) = ACTION_MAPPINGS st ∧
  processed_results st ⊆ processed_results (fst (poll_loop ticks st)) ∧
  ∃ text,
    COMMAND_QUEUE_FILE (fst (poll_loop ticks st)) = COMMAND_QUEUE_FILE st +:+ text.
Proof.
  change (extends st (fst (poll_loop ticks st))).
  revert st. induction ticks as [|t rest IH]; intros st; [apply extends_refl|].
  rewrite poll_loop_eq.
  assert (Hpass : extends st (fst (iteration (fst (arrive t st))))).
  { eapply extends_trans; [|apply extends_iteration].
    apply extends_quiet, quiet_step_arrive. }
  destruct (iteration _) as [st3 [[]|e]]; cbn in *; try exact Hpass.
  eapply extends_trans; [exact Hpass | apply IH].
Qed.

Lemma text_of_emits_app a b :
  text_of_emits (a ++ b) = text_of_emits a +:+ text_of_emits b.
Proof.
  induction a as [|batch a IH]; [reflexivity|].
  cbn [app text_of_emits]. by rewrite IH, string_app_assoc.
Qed.

Lemma logged_refl st : logged st st.
Proof.
  exists []. split; [by rewrite app_nil_r|]. cbn. by rewrite string_app_nil_r.
Qed.

Lemma logged_trans st1 st2 st3 : logged st1 st2 → logged st2 st3 → logged st1 st3.
Proof.
  intros (b1 & He1 & Hq1) (b2 & He2 & Hq2). exists (b1 ++ b2). split.
  - by rewrite He2, He1, <- app_assoc.
  - by rewrite Hq2, Hq1, text_of_emits_app, string_app_assoc.
Qed.

Lemma logged_quiet st st' : quiet_step st st' → logged st st'.
Proof.
  intros (Hq & He & _). exists []. split; [by rewrite app_nil_r|].
  cbn. by rewrite string_app_nil_r.
Qed.

Lemma logged_process_result d st :
  queue_fault st = NoFault →
  (∀ k a, ACTION_MAPPINGS st !! k = Some a → ∃ c, command a = JStr c) →
  logged st (fst (process_result d st)).
Proof.
  intros Hdisk Hstr.
  destruct (process_result_cases d st)
    as [[_ Heq] | [(ev & _ & _ & Heq) | (ev & act & Hev & Hnew & Hres & Hact & _)]];
    try (rewrite Heq; apply logged_refl).
  destruct (Hstr _ _ Hact) as (c & Hc).
  destruct (dispatch_eq d st ev act Hev Hnew Hres Hact)
    as (st' & text & errs & Heq & _ & _ & _ & Hq & _ & Hw).
  destruct (dispatch_ledger d st ev act Hev Hnew Hres Hact) as (He & _).
  rewrite Heq in *. cbn [fst] in *.
  rewrite Hdisk, Hc in Hw. cbn in Hw. destruct Hw as (_ & c' & [= <-] & ->).
  exists [[JStr c]]. split; [by rewrite He, Hc|].
  rewrite Hq. cbn. by rewrite !string_app_nil_r.
Qed.

(** Once the read is done, a pass adds at most one [process_result] call. *)
Lemma iteration_after st st1 d :
  read_data_file st = (st1, Return d) →
  quiet_step (if truthy d then fst (process_result d st1) else st1)
             (fst (iteration st)).
Proof.
  intros Hread. rewrite (iteration_run st st1 d Hread).
  destruct (truthy d).
  - destruct (process_result d st1) as [st2 [b|e]]; cbn;
      destruct (interrupt st2); cbn; quiet.
  - cbn. destruct (interrupt st1); cbn; quiet.
Qed.

Lemma logged_iteration st :
  queue_fault st = NoFault →
  (∀ k a, ACTION_MAPPINGS st !! k = Some a → ∃ c, command a = JStr c) →
  logged st (fst (iteration st)).
Proof.
  intros Hdisk Hstr.
  destruct (read_data_file_returns st) as (st1 & d & Hread & Hq1 & _ & Hdisk1 & _).
  eapply logged_trans; [apply (logged_quiet _ _ Hq1)|].
  eapply logged_trans; [|apply (logged_quiet _ _ (iteration_after st st1 d Hread))].
  destruct (truthy d); [|apply logged_refl].
  apply logged_process_result; [by rewrite Hdisk1|].
  destruct Hq1 as (_ & _ & _ & _ & Hm). by rewrite Hm.
Qed.

(** X13. While nothing goes wrong on the file system and every command in
    the table is a [str], the queue file is the log of the dispatches:
    over any stretch of the loop it grows by exactly the text of the
    commands handed to the queue writer, each followed by a newline, in the
    order they were handed over. *)
Theorem queue_file_logs_dispatches (ticks : list tick) (st : state) :
  Forall (λ t, fault_now t = NoFault) ticks →
  (∀ k a, ACTION_MAPPINGS st !! k = Some a → ∃ c, command a = JStr c) →
  ∃ batches,
    emits (trace (fst (poll_loop ticks st))) = emits (trace st) ++ batches ∧
    COMMAND_QUEUE_FILE (fst (poll_loop ticks st))
      = COMMAND_QUEUE_FILE st +:+ text_of_emits batches.
Proof.
  intros Hdisk Hstr. change (logged st (fst (poll_loop ticks st))).
  revert st Hstr. induction Hdisk as [|t rest Ht _ IH]; intros st Hstr;
    [apply logged_refl|].
  rewrite poll_loop_eq.
  set (s0 := fst (arrive t st)).
  assert (Hpass : logged st (fst (iteration s0))).
  { eapply logged_trans; [apply logged_quiet, quiet_step_arrive|].
    apply logged_iteration; [exact Ht | exact Hstr]. }
  assert (Hm : ACTION_MAPPINGS (fst (iteration s0)) = ACTION_MAPPINGS st).
  { destruct (extends_iteration s0) as (Hm & _). exact Hm. }
  destruct (iteration s0) as [st3 [[]|e]]; cbn in *; try exact Hpass.
  eapply logged_trans; [exact Hpass|]. apply IH. by rewrite Hm.
Qed.

Lemma queue_file_logs_dispatches_witness :
  let ticks := [quiet (Holds fire_snapshot); quiet Garbled;
                quiet (Holds fire_snapshot)] in
  Forall (λ t, fault_now t = NoFault) ticks ∧
  (∀ k a, ACTION_MAPPINGS fire_loaded !! k = Some a → ∃ c, command a = JStr c) ∧
  ∃ batches,
    emits (trace (fst (poll_loop ticks fire_loaded)))
      = emits (trace fire_loaded) ++ batches ∧
    COMMAND_QUEUE_FILE (fst (poll_loop ticks fire_loaded))
      = COMMAND_QUEUE_FILE fire_loaded +:+ text_of_emits batches.
Proof.
  intros ticks.
  assert (Hdisk : Forall (λ t, fault_now t = NoFault) ticks)
    by (repeat constructor).
  assert (Hstr : ∀ k a, ACTION_MAPPINGS fire_loaded !! k = Some a →
                        ∃ c, command a = JStr c).
  { intros k a Hk.
    assert (Htable : ACTION_MAPPINGS fire_loaded
              = {[ KStr "Fire Rune" := {| command := JStr "CAST_FIRE";
                                          description := JStr "Casts fire rune" |} ]})
      by reflexivity.
    rewrite Htable in Hk. apply lookup_singleton_Some in Hk as [_ <-].
    by exists "CAST_FIRE". }
  split; [exact Hdisk|]. split; [exact Hstr|].
  exact (queue_file_logs_dispatches ticks fire_loaded Hdisk Hstr).
Defined.

(** ** Staying alive *)

Lemma poll_loop_goes_on ticks st :
  Forall (λ t, interrupt_now t = false) ticks →
  snd (poll_loop ticks st) = Return Looping.
Proof.
  intros Hint. revert st. induction Hint as [|t rest Ht _ IH]; intros st;
    [reflexivity|].
  rewrite poll_loop_eq.
  destruct (iteration_shape (fst (arrive t st)))
    as (st1 & st2 & st3 & o & -> & _ & _ & _ & _ & Ho).
  rewrite (Ho Ht). apply IH.
Qed.

(** X14. Once the table is loaded, only Ctrl-C ends [run]: whatever the
    state file holds and whatever fails on the queue file, a pass without
    Ctrl-C neither breaks the loop nor lets an exception out, so after any
    number of such polls the loop is still turning. *)
Theorem run_ends_only_on_ctrl_c (st : state) (ticks : list tick) :
  snd (load_action_mappings st) = Return true →
  Forall (λ t, interrupt_now t = false) ticks →
  snd (run ticks st) = Return Looping.
Proof.
  intros Hload Hint. rewrite run_eq.
  set (st0 := record _ (record _ st)).
  assert (Hload0 : snd (load_action_mappings st0) = Return true)
    by (rewrite <- Hload; by apply load_outcome_by_file).
  destruct (load_action_mappings st0) as [st1 [[]|e]]; try discriminate.
  by apply poll_loop_goes_on.
Qed.

Lemma run_ends_only_on_ctrl_c_witness :
  let st := initial (Holds fire_options) EmptyString in
  let ticks :=
    [ quiet (Holds (JArr [JInt 1]));
      {| data_now := Holds fire_snapshot; fault_now := OpenFails;
         clock_now := "12:00:01"; interrupt_now := false |};
      quiet Denied; quiet Garbled ] in
  snd (load_action_mappings st) = Return true ∧
  Forall (λ t, interrupt_now t = false) ticks ∧
  snd (run ticks st) = Return Looping.
Proof.
  intros st ticks.
  assert (Hload : snd (load_action_mappings st) = Return true)
    by (vm_compute; reflexivity).
  assert (Hint : Forall (λ t, interrupt_now t = false) ticks)
    by (repeat constructor).
  split; [exact Hload|]. split; [exact Hint|].
  exact (run_ends_only_on_ctrl_c st ticks Hload Hint).
Defined.

Lemma iteration_outcome st e :
  snd (iteration st) = Raise e → e = KeyboardInterrupt.
Proof.
  destruct (read_data_file_returns st) as (st1 & d & Hread & _).
  rewrite (iteration_run st st1 d Hread).
  destruct (if truthy d then _ else _) as [st2 [b|e']];
    destruct (interrupt st2); cbn; congruence.
Qed.

Lemma poll_loop_outcome ticks st e :
  snd (poll_loop ticks st) = Raise e → e = KeyboardInterrupt.
Proof.
  revert st. induction ticks as [|t rest IH]; intros st; [discriminate|].
  rewrite poll_loop_eq.
  pose proof (iteration_outcome (fst (arrive t st))) as Hpass.
  destruct (iteration _) as [st3 [[]|e']]; cbn in *.
  - discriminate.
  - apply IH.
  - intros [= <-]. by apply Hpass.
Qed.

(** X15. No exception other than [KeyboardInterrupt] ever leaves [run]:
    whatever the options file, the state file and the queue file do, the
    script does not end with the traceback of an error. *)
Theorem run_raises_only_keyboard_interrupt (ticks : list tick) (st : state)
    (e : exn) :
  snd (run ticks st) = Raise e → e = KeyboardInterrupt.
Proof.
  rewrite run_eq.
  set (st0 := record _ (record _ st)).
  destruct (load_action_mappings_eq (OPTIONS_FILE st0)) as (r & Hload).
  destruct (Hload st0 eq_refl) as (table & ->).
  destruct r as [e'|]; [discriminate|]. apply poll_loop_outcome.
Qed.

Lemma run_raises_only_keyboard_interrupt_witness :
  let st := initial (Holds fire_options) EmptyString in
  let ticks := [{| data_now := Holds (JStr "x"); fault_now := NoFault;
                   clock_now := "12:00:00"; interrupt_now := true |}] in
  snd (run ticks st) = Raise KeyboardInterrupt ∧
  KeyboardInterrupt = KeyboardInterrupt.
Proof.
  intros st ticks.
  assert (Hrun : snd (run ticks st) = Raise KeyboardInterrupt)
    by (vm_compute; reflexivity).
  split; [exact Hrun|].
  exact (run_raises_only_keyboard_interrupt ticks st KeyboardInterrupt Hrun).
Defined.

(** ** The queue writer on a batch *)

Lemma write_lines_strings budget (good : list string) (more : list json) st :
  (∀ n, budget = Some n → length good ≤ n) →
  write_lines budget (map JStr good ++ more) st =
  write_lines ((λ n, n - length good) <$> budget) more
    (set_queue (COMMAND_QUEUE_FILE st +:+ queue_lines good) st).
Proof.
  revert budget st. induction good as [|c good IH]; intros budget st Hfit.
  - cbn. rewrite string_app_nil_r, set_queue_same.
    destruct budget as [n|]; cbn; [|reflexivity]. by rewrite Nat.sub_0_r.
  - cbn [map app write_lines].
    destruct budget as [[|n]|].
    + specialize (Hfit 0 eq_refl). cbn in Hfit. lia.
    + unfold mbind, M_bind. cbn. rewrite IH.
      * cbn. by rewrite !string_app_assoc.
      * intros m [= <-]. specialize (Hfit (S n) eq_refl). cbn in Hfit. lia.
    + unfold mbind, M_bind. cbn. rewrite IH by done.
      cbn. by rewrite !string_app_assoc.
Qed.

(** X16. [write_command_queue] does not roll back.  When a batch holds a
    command that is not a [str], the call returns [False] and prints the
    error, the lines of the commands before it stay appended to the queue
    file, and the commands after it are not written. *)
Theorem write_stops_at_bad_command (good : list string) (bad : json)
    (rest : list json) (st : state) :
  queue_fault st = NoFault →
  (∀ c, bad ≠ JStr c) →
  write_command_queue (map JStr good ++ bad :: rest) st =
    (record (Print ("Error writing command queue: " +:+ exn_str TypeError))
       (set_queue (COMMAND_QUEUE_FILE st +:+ queue_lines good)
          (record (Emit (map JStr good ++ bad :: rest)) st)),
     Return false).
Proof.
  intros Hdisk Hbad. unfold write_command_queue. step. rewrite Hdisk.
  rewrite write_lines_strings by done. cbn.
  destruct bad; try reflexivity. by destruct (Hbad s).
Qed.

Lemma write_stops_at_bad_command_witness :
  let st := set_queue ("OLD" +:+ newline) fire_loaded in
  queue_fault st = NoFault ∧
  (∀ c, JNull ≠ JStr c) ∧
  write_command_queue (map JStr ["A"; "B"] ++ JNull :: [JStr "C"]) st =
    (record (Print ("Error writing command queue: " +:+ exn_str TypeError))
       (set_queue (COMMAND_QUEUE_FILE st +:+ queue_lines ["A"; "B"])
          (record (Emit (map JStr ["A"; "B"] ++ JNull :: [JStr "C"])) st)),
     Return false).
Proof.
  intros st.
  assert (Hdisk : queue_fault st = NoFault) by reflexivity.
  assert (Hbad : ∀ c, JNull ≠ JStr c) by discriminate.
  split; [exact Hdisk|]. split; [exact Hbad|].
  exact (write_stops_at_bad_command ["A"; "B"] JNull [JStr "C"] st Hdisk Hbad).
Defined.

(** ** Loading twice, and events without a timestamp *)

(** X17. Loading is idempotent: after a successful load of a well-formed
    options file, loading the same file again returns [True] and leaves
    the table exactly as it is. *)
Theorem load_twice_same (st : state) (data : json) (opts : list json)
    (entries : list (string * action)) :
  OPTIONS_FILE st = Holds data →
  data = JArr opts ∨
    (∃ fields, data = JObj fields ∧ dict_lookup "options" fields = Some (JArr opts)) →
  Forall2 (λ item e, entry_of item = Some e) opts entries →
  let st1 := fst (load_action_mappings st) in
  load_action_mappings st1 = (st1, Return true).
Proof.
  intros Hfile Hshape Hall st1.
  assert (Hopts : options_of (Holds data) = inr opts).
  { destruct Hshape as [-> | (fields & -> & Hopt)]; [reflexivity|].
    cbn. by rewrite Hopt. }
  destruct (store_all_entries opts entries (ACTION_MAPPINGS st) Hall)
    as (table & Hrun & Hstr & Hother).
  assert (Hst1 : st1 = set_mappings table st).
  { subst st1. by rewrite load_action_mappings_run, Hfile, Hopts, Hrun. }
  destruct (store_all_entries opts entries table Hall)
    as (table' & Hrun' & Hstr' & Hother').
  assert (table' = table) as ->.
  { apply map_eq. intros [name| | |].
    - rewrite Hstr', Hstr. by destruct (dict_lookup name entries).
    - by apply Hother'.
    - by apply Hother'.
    - by apply Hother'. }
  rewrite Hst1, load_action_mappings_run. cbn. rewrite Hfile, Hopts, Hrun'.
  reflexivity.
Qed.

Lemma load_twice_same_witness :
  let st := initial (Holds rune_options) EmptyString in
  let opts :=
    [JObj [("name", JStr "Fire_Rune"); ("command", JStr "CAST_FIRE");
           ("description", JStr "Casts fire rune")];
     JObj [("name", JStr "Fire"); ("command", JStr "IGNITE");
           ("description", JStr "Lights a fire")]] in
  let entries :=
    [("Fire_Rune", {| command := JStr "CAST_FIRE";
                      description := JStr "Casts fire rune" |});
     ("Fire", {| command := JStr "IGNITE"; description := JStr "Lights a fire" |})] in
  OPTIONS_FILE st = Holds rune_options ∧
  Forall2 (λ item e, entry_of item = Some e) opts entries ∧
  load_action_mappings (fst (load_action_mappings st))
    = (fst (load_action_mappings st), Return true).
Proof.
  intros st opts entries.
  assert (Hfile : OPTIONS_FILE st = Holds rune_options) by reflexivity.
  assert (Hall : Forall2 (λ item e, entry_of item = Some e) opts entries)
    by (repeat constructor).
  split; [exact Hfile|]. split; [exact Hall|].
  apply (load_twice_same st rune_options opts entries Hfile); [|exact Hall].
  by left.
Defined.

(** X18. A snapshot without a [timestamp] member is deduplicated by its
    result alone: its key ends in "None", so once one such snapshot is
    dispatched, every later snapshot without a timestamp and with the same
    trimmed result is refused, for the rest of the lifetime. *)
Theorem missing_timestamp_dedups_by_result (f1 f2 : list (string * json))
    (r1 r2 : string) (st st1 s : state) :
  dict_lookup "timestamp" f1 = None →
  dict_lookup "timestamp" f2 = None →
  dict_lookup "result" f1 = Some (JStr r1) →
  dict_lookup "result" f2 = Some (JStr r2) →
  strip r1 = strip r2 →
  process_result (JObj f1) st = (st1, Return true) →
  processed_results st1 ⊆ processed_results s →
  (strip r1 +:+ "_None" ∈ processed_results st1) ∧
  process_result (JObj f2) s = (s, Return false).
Proof.
  intros Ht1 Ht2 Hr1 Hr2 Hsame Hrun Hsub.
  destruct (dispatched_inv _ _ _ Hrun) as (ev & act & Hev & Hnew & Hres & Hact).
  destruct (dispatch_eq _ st ev act Hev Hnew Hres Hact)
    as (st' & ? & ? & Hrun' & Hp & _).
  assert (st' = st1) as -> by congruence.
  cbn in Hev. rewrite Hr1, Ht1 in Hev. cbn in Hev. injection Hev as <-.
  assert (Hin : strip r1 +:+ "_None" ∈ processed_results st1).
  { rewrite Hp. apply elem_of_union_l. by apply elem_of_singleton. }
  split; [exact Hin|].
  apply (recorded_event_refused (JObj f2)
           {| result := strip r2; timestamp := JNull;
              mods := from_option id (JArr []) (dict_lookup "mods" f2) |}).
  - cbn. by rewrite Hr2, Ht2.
  - apply Hsub. unfold ResultKey, result_key. cbn. by rewrite <- Hsame.
Qed.

Lemma missing_timestamp_dedups_by_result_witness :
  let f1 := [("result", JStr "Fire Rune")] in
  let f2 := [("mods", JArr []); ("result", JStr " Fire Rune")] in
  let st1 := fst (process_result (JObj f1) fire_loaded) in
  dict_lookup "timestamp" f1 = None ∧
  dict_lookup "timestamp" f2 = None ∧
  dict_lookup "result" f1 = Some (JStr "Fire Rune") ∧
  dict_lookup "result" f2 = Some (JStr " Fire Rune") ∧
  strip "Fire Rune" = strip " Fire Rune" ∧
  process_result (JObj f1) fire_loaded = (st1, Return true) ∧
  processed_results st1 ⊆ processed_results st1 ∧
  (strip "Fire Rune" +:+ "_None" ∈ processed_results st1) ∧
  process_result (JObj f2) st1 = (st1, Return false).
Proof.
  intros f1 f2 st1.
  assert (Hrun : process_result (JObj f1) fire_loaded = (st1, Return true))
    by (vm_compute; reflexivity).
  assert (Hsub : processed_results st1 ⊆ processed_results st1) by reflexivity.
  do 5 (split; [reflexivity|]). split; [exact Hrun|]. split; [exact Hsub|].
  exact (missing_timestamp_dedups_by_result f1 f2 "Fire Rune" " Fire Rune"
           fire_loaded st1 st1 eq_refl eq_refl eq_refl eq_refl eq_refl Hrun Hsub).
Defined.
